(** * VideoML standard library: DOM components, theme and timeline binding

    A shallow embedding of the custom-element runtime of the VideoML
    standard library: the prop decoder [parseProps], the theme resolver
    [resolveTheme], the [render] methods of the component catalog, the
    timeline binding of [MotionBarsElement] and the fallback registration.

    The code under verification is TypeScript running on the DOM.  The
    host functions it calls ([JSON.parse], [Number], [String], property
    access, [customElements.define], event listeners, the custom element
    reactions) are modelled after ECMA-262, ECMA-404 and the DOM and HTML
    standards; every such definition says so in its comment.  The
    definitions named after a function of the source follow that function
    statement by statement. *)

From Stdlib Require Import String Ascii List ZArith QArith Qabs Lia Lqa Bool.
Import ListNotations.

Local Open Scope string_scope.
Local Open Scope list_scope.
Local Close Scope Q_scope.

(** ** ECMAScript numbers *)

Module Num.

(** A Number is NaN, an infinity or a finite value.  Finite values are
    kept as exact rationals in lowest terms: the model keeps the special
    values and the overflow to infinity of IEEE 754 binary64 and leaves
    out the rounding of finite results and the sign of zero. *)
Inductive number : Type :=
| NaN
| PosInf
| NegInf
| Fin (q : Q).

(** Every real of magnitude at least 2^1024 - 2^970 rounds to an infinity. *)
Definition OVERFLOW : Q := inject_Z (2 ^ 1024 - 2 ^ 970).

Definition ofQ (q : Q) : number :=
  let r := Qred q in
  if Qle_bool OVERFLOW r then PosInf
  else if Qle_bool r (Qopp OVERFLOW) then NegInf
  else Fin r.

Definition ofZ (z : Z) : number := ofQ (inject_Z z).

(** [a < b] of ECMAScript on numbers: false as soon as one side is NaN. *)
Definition ltb (a b : number) : bool :=
  match a, b with
  | NaN, _ | _, NaN => false
  | PosInf, _ => false
  | _, NegInf => false
  | NegInf, _ => true
  | _, PosInf => true
  | Fin x, Fin y => negb (Qle_bool y x)
  end.

Definition leb (a b : number) : bool :=
  match a, b with
  | NaN, _ | _, NaN => false
  | NegInf, _ => true
  | _, PosInf => true
  | PosInf, _ => false
  | _, NegInf => false
  | Fin x, Fin y => Qle_bool x y
  end.

(** [Math.max] and [Math.min] of two arguments. *)
Definition max2 (a b : number) : number :=
  match a, b with
  | NaN, _ | _, NaN => NaN
  | _, _ => if ltb a b then b else a
  end.

Definition min2 (a b : number) : number :=
  match a, b with
  | NaN, _ | _, NaN => NaN
  | _, _ => if ltb b a then b else a
  end.

(** [Math.max(...args)]: starts from -Infinity (ECMA-262, 21.3.2.24). *)
Definition Math_max (args : list number) : number :=
  fold_left max2 args NegInf.

Definition isNeg (q : Q) : bool := negb (Qle_bool 0 q).
Definition isZero (q : Q) : bool := Qeq_bool q 0.

Definition mul (a b : number) : number :=
  match a, b with
  | NaN, _ | _, NaN => NaN
  | Fin x, Fin y => ofQ (Qmult x y)
  | Fin x, PosInf | PosInf, Fin x =>
      if isZero x then NaN else if isNeg x then NegInf else PosInf
  | Fin x, NegInf | NegInf, Fin x =>
      if isZero x then NaN else if isNeg x then PosInf else NegInf
  | PosInf, PosInf | NegInf, NegInf => PosInf
  | PosInf, NegInf | NegInf, PosInf => NegInf
  end.

Definition div (a b : number) : number :=
  match a, b with
  | NaN, _ | _, NaN => NaN
  | Fin x, Fin y =>
      if isZero y
      then (if isZero x then NaN else if isNeg x then NegInf else PosInf)
      else ofQ (Qdiv x y)
  | Fin _, PosInf | Fin _, NegInf => Fin 0
  | PosInf, Fin y => if isNeg y then NegInf else PosInf
  | NegInf, Fin y => if isNeg y then PosInf else NegInf
  | _, _ => NaN
  end.

(** ToBoolean on a number: false for 0 and NaN. *)
Definition truthy (n : number) : bool :=
  match n with
  | NaN => false
  | Fin q => negb (isZero q)
  | _ => true
  end.

(** 10^e as a rational, for decimal literals. *)
Definition pow10 (e : Z) : Q :=
  if (0 <=? e)%Z then inject_Z (10 ^ e)
  else Qmake 1 (Z.to_pos (10 ^ (- e))).

(** The value of the decimal literal [mant * 10^e], with its sign. *)
Definition decimal (neg : bool) (mant : Z) (e : Z) : number :=
  ofQ (Qmult (inject_Z (if neg then - mant else mant)) (pow10 e)).

End Num.
Export Num.

Definition numZ (z : Z) : number := Num.ofZ z.

(** ** Strings *)

(** A string of the source is a Rocq [string] of bytes.  ASCII characters
    are one byte each; any other character is its UTF-8 bytes. *)

Definition chars (s : string) : list ascii := list_ascii_of_string s.
Definition str (l : list ascii) : string := string_of_list_ascii l.

Definition DQUOTE : ascii := "034"%char.

(** [json "{'a':1}"] writes a JSON text with ' standing for the double
    quote. *)
Definition json (s : string) : string :=
  str (map (fun c => if Ascii.eqb c "'"%char then DQUOTE else c) (chars s)).

Definition code (c : ascii) : nat := nat_of_ascii c.

Definition isDigit (c : ascii) : bool :=
  (48 <=? code c)%nat && (code c <=? 57)%nat.

Definition digitVal (c : ascii) : Z := Z.of_nat (code c) - 48.

Definition isUpper (c : ascii) : bool :=
  (65 <=? code c)%nat && (code c <=? 90)%nat.

Definition isLower (c : ascii) : bool :=
  (97 <=? code c)%nat && (code c <=? 122)%nat.

(** [String.prototype.toLowerCase], on the ASCII letters. *)
Definition toLowerCase (s : string) : string :=
  str (map (fun c => if isUpper c then ascii_of_nat (code c + 32) else c)
           (chars s)).

(** [String.prototype.includes] for a one-character needle. *)
Definition includesChar (c : ascii) (s : string) : bool :=
  existsb (Ascii.eqb c) (chars s).

(** White space and line terminators of ECMA-262 in the ASCII range:
    TAB, LF, VT, FF, CR and SP. *)
Definition isStrWhiteSpace (c : ascii) : bool :=
  ((9 <=? code c)%nat && (code c <=? 13)%nat) || (code c =? 32)%nat.

Fixpoint trimStartChars (l : list ascii) : list ascii :=
  match l with
  | c :: t => if isStrWhiteSpace c then trimStartChars t else l
  | [] => []
  end.

Definition trimChars (l : list ascii) : list ascii :=
  rev (trimStartChars (rev (trimStartChars l))).

(** [String.prototype.trim]. *)
Definition trim (s : string) : string := str (trimChars (chars s)).

Definition isEmptyString (s : string) : bool :=
  match s with EmptyString => true | _ => false end.

(** ** Values *)

(** Errors a statement of the source can throw. *)
Inductive Error : Type :=
| TypeError
| SyntaxError
| NotSupportedError.

Inductive result (A : Type) : Type :=
| Ok (a : A)
| Throw (e : Error).
Arguments Ok {A} a.
Arguments Throw {A} e.

Definition bind {A B : Type} (m : result A) (k : A -> result B) : result B :=
  match m with
  | Ok a => k a
  | Throw e => Throw e
  end.

Notation "x <- m ;; k" := (bind m (fun x => k))
  (at level 61, m at next level, right associativity).

Definition isOk {A : Type} (r : result A) : bool :=
  match r with Ok _ => true | Throw _ => false end.

(** A value of the language, as far as the components can meet one: the
    values [JSON.parse] builds, [undefined] (a missing property) and a
    built-in method.  The only built-in in reach of the property names the
    components read is [Array.prototype.values]. *)
#[warnings="-register-all"]
Inductive JSValue : Type :=
| JUndefined
| JNull
| JBool (b : bool)
| JNum (n : number)
| JStr (s : string)
| JArr (elems : list JSValue)
| JObj (fields : list (string * JSValue))
| JBuiltin (name : string).

(** The text a DOM slot holds.  The decimal rendering of a number
    ([Number::toString]) is kept as the number it renders; [Scale] is the
    rendering of the number the tick handler computes,
    [Math.max(0.1, base * (0.7 + 0.3 * Math.sin(time * 2 + idx)))]. *)
Inductive piece : Type :=
| Chars (s : string)
| Digits (n : number)
| Scale (base time : number) (idx : nat).

Definition DOMString : Type := list piece.

Definition lit (s : string) : DOMString := [Chars s].

Definition pieceEmpty (p : piece) : bool :=
  match p with
  | Chars s => isEmptyString s
  | _ => false
  end.

(** A DOMString is falsy exactly when it has no character. *)
Definition isEmptyText (t : DOMString) : bool := forallb pieceEmpty t.

Fixpoint joinWith (sep : DOMString) (parts : list DOMString) : DOMString :=
  match parts with
  | [] => []
  | [p] => p
  | p :: rest => p ++ sep ++ joinWith sep rest
  end.

(** ToString (ECMA-262, 7.1.17) and, for arrays, [Array.prototype.join]
    with a comma, where [null] and [undefined] elements render empty. *)
Fixpoint ToString (v : JSValue) : DOMString :=
  match v with
  | JUndefined => lit "undefined"
  | JNull => lit "null"
  | JBool true => lit "true"
  | JBool false => lit "false"
  | JNum n => [Digits n]
  | JStr s => lit s
  | JArr elems =>
      joinWith (lit ",")
        (map (fun e => match e with
                       | JUndefined | JNull => []
                       | _ => ToString e
                       end) elems)
  | JObj _ => lit "[object Object]"
  | JBuiltin name => lit ("function " ++ name ++ "() { [native code] }")
  end.

(** ToBoolean (ECMA-262, 7.1.2). *)
Definition ToBoolean (v : JSValue) : bool :=
  match v with
  | JUndefined | JNull => false
  | JBool b => b
  | JNum n => Num.truthy n
  | JStr s => negb (isEmptyString s)
  | JArr _ | JObj _ | JBuiltin _ => true
  end.

(** [a ?? b]. *)
Definition nullish (v : JSValue) : bool :=
  match v with JUndefined | JNull => true | _ => false end.

Definition orElse (a b : JSValue) : JSValue :=
  if nullish a then b else a.
Infix "??" := orElse (at level 45, left associativity).

(** [Array.isArray]. *)
Definition Array_isArray (v : JSValue) : bool :=
  match v with JArr _ => true | _ => false end.

(** [a !== false]. *)
Definition isNotFalse (v : JSValue) : bool :=
  match v with JBool false => false | _ => true end.

(** *** Property access *)

Fixpoint lookup {A : Type} (k : string) (l : list (string * A)) : option A :=
  match l with
  | [] => None
  | (k', v) :: rest => if String.eqb k k' then Some v else lookup k rest
  end.

(** Writes [k := v]: an existing entry keeps its place, a new one goes to
    the end (property order of an ordinary object). *)
Fixpoint assign {A : Type} (k : string) (v : A) (l : list (string * A))
  : list (string * A) :=
  match l with
  | [] => [(k, v)]
  | (k', v') :: rest =>
      if String.eqb k k' then (k, v) :: rest else (k', v') :: assign k v rest
  end.

(** [v.key] on a value that is not [null] or [undefined] (ECMA-262,
    GetValue and ToObject): an own property of an object; on an array its
    [length] and the inherited method [values]; on a string its [length];
    anything else is [undefined]. *)
Definition GetOwn (v : JSValue) (key : string) : JSValue :=
  match v with
  | JObj fields =>
      match lookup key fields with
      | Some x => x
      | None => JUndefined
      end
  | JArr elems =>
      if String.eqb key "values" then JBuiltin "values"
      else if String.eqb key "length"
      then JNum (numZ (Z.of_nat (List.length elems)))
      else JUndefined
  | JStr s =>
      if String.eqb key "length"
      then JNum (numZ (Z.of_nat (String.length s)))
      else JUndefined
  | _ => JUndefined
  end.

(** [v.key]: a TypeError on [null] and [undefined]. *)
Definition Get (v : JSValue) (key : string) : result JSValue :=
  if nullish v then Throw TypeError else Ok (GetOwn v key).

(** [v?.key]. *)
Definition GetOpt (v : JSValue) (key : string) : JSValue :=
  if nullish v then JUndefined else GetOwn v key.

(** [arr[idx]] for an array and an index. *)
Definition Index (elems : list JSValue) (idx : nat) : JSValue :=
  nth idx elems JUndefined.

(** *** Iteration *)

(** Groups the bytes of a string by code point: a UTF-8 continuation byte
    (10xxxxxx) stays with the byte before it. *)
Fixpoint codePoints (l : list ascii) : list (list ascii) :=
  match l with
  | [] => []
  | c :: rest =>
      match codePoints rest with
      | (d :: cp) :: more =>
          if ((128 <=? code d)%nat && (code d <? 192)%nat)%bool
          then (c :: d :: cp) :: more
          else [c] :: (d :: cp) :: more
      | other => [c] :: other
      end
  end.

(** The values a [for (const x of v)] loop visits: the elements of an
    array, the code points of a string; any other value is not iterable. *)
Definition iterate (v : JSValue) : result (list JSValue) :=
  match v with
  | JArr elems => Ok elems
  | JStr s => Ok (map (fun cp => JStr (str cp)) (codePoints (chars s)))
  | _ => Throw TypeError
  end.

(** *** Conversion to a number *)

(** Reads a run of decimal digits: the integer they spell after [acc], how
    many there were, and the rest. *)
Fixpoint spanDigits (l : list ascii) (acc : Z) (count : Z)
  : Z * Z * list ascii :=
  match l with
  | c :: rest =>
      if isDigit c then spanDigits rest (10 * acc + digitVal c)%Z (count + 1)%Z
      else (acc, count, l)
  | [] => (acc, count, [])
  end.

Definition hexVal (c : ascii) : option Z :=
  if isDigit c then Some (digitVal c)
  else if ((97 <=? code c)%nat && (code c <=? 102)%nat)%bool
  then Some (Z.of_nat (code c) - 87)%Z
  else if ((65 <=? code c)%nat && (code c <=? 70)%nat)%bool
  then Some (Z.of_nat (code c) - 55)%Z
  else None.

(** Reads digits of the radix to the end of the text; [None] when a
    character is not a digit of the radix. *)
Fixpoint radixDigits (radix : Z) (l : list ascii) (acc : Z) : option Z :=
  match l with
  | [] => Some acc
  | c :: rest =>
      match hexVal c with
      | Some d =>
          if (d <? radix)%Z then radixDigits radix rest (radix * acc + d)%Z
          else None
      | None => None
      end
  end.

(** The exponent part [e[+-]digits] if the text starts with one. *)
Definition spanExponent (l : list ascii) : option (Z * list ascii) :=
  match l with
  | c :: rest =>
      if (Ascii.eqb c "e" || Ascii.eqb c "E")%bool then
        let '(neg, rest') :=
          match rest with
          | s :: t =>
              if Ascii.eqb s "-" then (true, t)
              else if Ascii.eqb s "+" then (false, t)
              else (false, rest)
          | [] => (false, rest)
          end in
        let '(e, n, after) := spanDigits rest' 0%Z 0%Z in
        if (n =? 0)%Z then None
        else Some (if neg then (- e)%Z else e, after)
      else None
  | [] => None
  end.

(** The longest prefix that is a StrUnsignedDecimalLiteral without the
    [Infinity] case: its value and the rest, or [None] if there is none. *)
Definition spanDecimal (neg : bool) (l : list ascii)
  : option (number * list ascii) :=
  let '(m1, n1, r1) := spanDigits l 0%Z 0%Z in
  let '(m2, n2, r2) :=
    match r1 with
    | c :: t => if Ascii.eqb c "." then spanDigits t m1 0%Z else (m1, 0%Z, r1)
    | [] => (m1, 0%Z, r1)
    end in
  if (n1 + n2 =? 0)%Z then None
  else
    match spanExponent r2 with
    | Some (e, r3) => Some (Num.decimal neg m2 (e - n2)%Z, r3)
    | None => Some (Num.decimal neg m2 (- n2)%Z, r2)
    end.

Definition splitSign (l : list ascii) : bool * list ascii :=
  match l with
  | c :: t =>
      if Ascii.eqb c "-" then (true, t)
      else if Ascii.eqb c "+" then (false, t)
      else (false, l)
  | [] => (false, l)
  end.

Fixpoint startsWith (p l : list ascii) : option (list ascii) :=
  match p, l with
  | [], _ => Some l
  | a :: p', b :: l' => if Ascii.eqb a b then startsWith p' l' else None
  | _ :: _, [] => None
  end.

(** StringToNumber (ECMA-262, 7.1.4.1.1): the trimmed text is empty (0),
    a signed decimal literal or [Infinity], or an unsigned literal in
    radix 16, 8 or 2; anything else is NaN. *)
Definition StringToNumber (s : string) : number :=
  let body := trimChars (chars s) in
  match body with
  | [] => Fin 0
  | c0 :: c1 :: (d :: _) as digits =>
      let radix :=
        if Ascii.eqb c0 "0" then
          if (Ascii.eqb c1 "x" || Ascii.eqb c1 "X")%bool then Some 16%Z
          else if (Ascii.eqb c1 "o" || Ascii.eqb c1 "O")%bool then Some 8%Z
          else if (Ascii.eqb c1 "b" || Ascii.eqb c1 "B")%bool then Some 2%Z
          else None
        else None in
      match radix with
      | Some r =>
          match radixDigits r digits 0%Z with
          | Some z => Num.ofZ z
          | None => NaN
          end
      | None =>
          let '(neg, rest) := splitSign body in
          match startsWith (chars "Infinity") rest with
          | Some [] => if neg then NegInf else PosInf
          | Some _ => NaN
          | None =>
              match spanDecimal neg rest with
              | Some (n, []) => n
              | _ => NaN
              end
          end
      end
  | _ =>
      let '(neg, rest) := splitSign body in
      match spanDecimal neg rest with
      | Some (n, []) => n
      | _ => NaN
      end
  end.

(** [Number(v)], ToNumber (ECMA-262, 7.1.4).  An array goes through its
    string: empty for no element, the string of its element for one (a
    number reads back as itself), and a text with a comma, which is no
    numeric literal, for more. *)
Fixpoint ToNumber (v : JSValue) : number :=
  match v with
  | JUndefined => NaN
  | JNull => Fin 0
  | JBool true => Fin 1
  | JBool false => Fin 0
  | JNum n => n
  | JStr s => StringToNumber s
  | JArr [] => Fin 0
  | JArr [e] =>
      match e with
      | JUndefined | JNull => Fin 0
      | JBool _ => NaN
      | _ => ToNumber e
      end
  | JArr _ => NaN
  | JObj _ => NaN
  | JBuiltin _ => NaN
  end.

(** [Number.parseFloat] (ECMA-262, 19.2.4) on the text of a DOM slot: the
    rendering of a number reads back as that number; otherwise the longest
    decimal prefix after leading white space. *)
Definition parseFloat (t : DOMString) : number :=
  match t with
  | [Digits n] => n
  | [Chars s] =>
      let '(neg, rest) := splitSign (trimStartChars (chars s)) in
      match startsWith (chars "Infinity") rest with
      | Some _ => if neg then NegInf else PosInf
      | None =>
          match spanDecimal neg rest with
          | Some (n, _) => n
          | None => NaN
          end
      end
  | _ => NaN
  end.

(** ** JSON.parse *)

(** [JSON.parse] (ECMA-262, 25.5.1, on the grammar of ECMA-404) as a
    pushdown automaton reading the text one character at a time: it
    either accepts the whole text and yields its value, or fails, which is
    the SyntaxError of the source.  No call of the source passes a
    reviver. *)
Module JSON.

(** A container under construction; members and elements newest first. *)
Inductive frame : Type :=
| InArray (done : list JSValue)
| InObject (done : list (string * JSValue)) (key : option string).

(** Where the automaton is inside a number (ECMA-404, section 8). *)
Inductive numstate : Type :=
| NMinus      (* after the sign: a digit must follow *)
| NZero       (* after a leading 0 *)
| NInt        (* inside the integer digits *)
| NDot        (* after the point: a digit must follow *)
| NFrac       (* inside the fraction digits *)
| NExp        (* after e or E: a sign or a digit must follow *)
| NExpSign    (* after the sign of the exponent: a digit must follow *)
| NExpDigits. (* inside the exponent digits *)

Record numacc : Type := {
  neg : bool;      (* a leading minus *)
  mant : Z;        (* the integer and fraction digits read as one integer *)
  fracLen : Z;     (* how many of them are fraction digits *)
  eneg : bool;     (* a minus in the exponent *)
  expo : Z         (* the exponent digits *)
}.

(** Where the automaton is inside a string (ECMA-404, section 9). *)
Inductive strstate : Type :=
| SPlain
| SEscape
| SHex (digits : list Z).

Inductive mode : Type :=
| Value                      (* a value must start *)
| ArrStart                   (* after [: a value or ] *)
| ObjStart                   (* after {: a key or } *)
| ObjKey                     (* after a comma in an object: a key *)
| Colon                      (* after a key: a colon *)
| After                      (* after a value: a comma, a closer or the end *)
| InStr (iskey : bool) (acc : list ascii) (st : strstate)
| InNum (st : numstate) (acc : numacc)
| InLit (rest : list ascii) (v : JSValue).

Record state : Type := {
  stack : list frame;
  current : mode;
  top : option JSValue   (* the value of the whole text, once complete *)
}.

Definition isWhiteSpace (c : ascii) : bool :=
  ((code c =? 32) || (code c =? 9) || (code c =? 10) || (code c =? 13))%nat.

(** A value is complete: it is the value of the text, the next element of
    the array on top, or the value of the pending key of the object on
    top.  A repeated key overwrites the earlier member. *)
Definition complete (stk : list frame) (v : JSValue) : option state :=
  match stk with
  | [] => Some {| stack := []; current := After; top := Some v |}
  | InArray done :: below =>
      Some {| stack := InArray (v :: done) :: below; current := After;
              top := None |}
  | InObject done (Some k) :: below =>
      Some {| stack := InObject ((k, v) :: done) None :: below;
              current := After; top := None |}
  | InObject _ None :: _ => None
  end.

(** The members of a finished object in source order, a repeated key
    holding its last value at its first place. *)
Definition members (done : list (string * JSValue))
  : list (string * JSValue) :=
  fold_left (fun acc kv => assign (fst kv) (snd kv) acc) (rev done) [].

Definition numValue (a : numacc) : number :=
  Num.decimal (neg a) (mant a)
    ((if eneg a then - expo a else expo a) - fracLen a)%Z.

Definition numAccepting (st : numstate) : bool :=
  match st with
  | NZero | NInt | NFrac | NExpDigits => true
  | _ => false
  end.

Definition isE (c : ascii) : bool := (Ascii.eqb c "e" || Ascii.eqb c "E")%bool.

(** One more character of a number, or [None] when the character does not
    continue it. *)
Definition numStep (st : numstate) (a : numacc) (c : ascii)
  : option (numstate * numacc) :=
  let digit (a : numacc) :=
    {| neg := neg a; mant := (10 * mant a + digitVal c)%Z;
       fracLen := fracLen a; eneg := eneg a; expo := expo a |} in
  let fdigit (a : numacc) :=
    {| neg := neg a; mant := (10 * mant a + digitVal c)%Z;
       fracLen := (fracLen a + 1)%Z; eneg := eneg a; expo := expo a |} in
  let edigit (a : numacc) :=
    {| neg := neg a; mant := mant a; fracLen := fracLen a; eneg := eneg a;
       expo := (10 * expo a + digitVal c)%Z |} in
  let eminus (a : numacc) :=
    {| neg := neg a; mant := mant a; fracLen := fracLen a; eneg := true;
       expo := expo a |} in
  match st with
  | NMinus =>
      if Ascii.eqb c "0" then Some (NZero, a)
      else if isDigit c then Some (NInt, digit a)
      else None
  | NZero =>
      if Ascii.eqb c "." then Some (NDot, a)
      else if isE c then Some (NExp, a)
      else None
  | NInt =>
      if isDigit c then Some (NInt, digit a)
      else if Ascii.eqb c "." then Some (NDot, a)
      else if isE c then Some (NExp, a)
      else None
  | NDot => if isDigit c then Some (NFrac, fdigit a) else None
  | NFrac =>
      if isDigit c then Some (NFrac, fdigit a)
      else if isE c then Some (NExp, a)
      else None
  | NExp =>
      if Ascii.eqb c "+" then Some (NExpSign, a)
      else if Ascii.eqb c "-" then Some (NExpSign, eminus a)
      else if isDigit c then Some (NExpDigits, edigit a)
      else None
  | NExpSign => if isDigit c then Some (NExpDigits, edigit a) else None
  | NExpDigits => if isDigit c then Some (NExpDigits, edigit a) else None
  end.

(** The UTF-8 bytes of a UTF-16 code unit. *)
Definition utf8 (u : Z) : list ascii :=
  let byte (z : Z) := ascii_of_nat (Z.to_nat z) in
  if (u <? 128)%Z then [byte u]
  else if (u <? 2048)%Z
  then [byte (192 + u / 64); byte (128 + u mod 64)]%Z
  else [byte (224 + u / 4096); byte (128 + (u / 64) mod 64);
        byte (128 + u mod 64)]%Z.

(** Appends the code unit of a [\uXXXX] escape to the bytes read so far
    (newest first).  A low surrogate that follows a high one completes a
    code point beyond the basic plane, which has four bytes. *)
Definition appendCodeUnit (u : Z) (acc : list ascii) : list ascii :=
  let byte (z : Z) := ascii_of_nat (Z.to_nat z) in
  let val (c : ascii) := Z.of_nat (code c) in
  match acc with
  | l :: m :: e :: rest =>
      if ((56320 <=? u) && (u <=? 57343) && (val e =? 237)
          && (160 <=? val m) && (val m <=? 175))%Z
      then
        let hi := (53248 + (val m - 128) * 64 + (val l - 128))%Z in
        let cp := (65536 + (hi - 55296) * 1024 + (u - 56320))%Z in
        rev [byte (240 + cp / 262144); byte (128 + (cp / 4096) mod 64);
             byte (128 + (cp / 64) mod 64); byte (128 + cp mod 64)]%Z
        ++ rest
      else rev (utf8 u) ++ acc
  | _ => rev (utf8 u) ++ acc
  end.

(** The character an escape letter stands for. *)
Definition escapeChar (c : ascii) : option ascii :=
  if Ascii.eqb c DQUOTE then Some DQUOTE
  else if Ascii.eqb c "\" then Some "\"%char
  else if Ascii.eqb c "/" then Some "/"%char
  else if Ascii.eqb c "b" then Some "008"%char
  else if Ascii.eqb c "f" then Some "012"%char
  else if Ascii.eqb c "n" then Some "010"%char
  else if Ascii.eqb c "r" then Some "013"%char
  else if Ascii.eqb c "t" then Some "009"%char
  else None.

(** A string is complete: a key of the object on top, or a value. *)
Definition completeString (stk : list frame) (iskey : bool) (s : string)
  : option state :=
  if iskey then
    match stk with
    | InObject done None :: below =>
        Some {| stack := InObject done (Some s) :: below; current := Colon;
                top := None |}
    | _ => None
    end
  else complete stk (JStr s).

Definition noNum : numacc :=
  {| neg := false; mant := 0; fracLen := 0; eneg := false; expo := 0 |}.

(** The first character of a value. *)
Definition startValue (stk : list frame) (c : ascii) : option state :=
  let go (stk : list frame) (m : mode) :=
    Some {| stack := stk; current := m; top := None |} in
  if Ascii.eqb c "{" then go (InObject [] None :: stk) ObjStart
  else if Ascii.eqb c "[" then go (InArray [] :: stk) ArrStart
  else if Ascii.eqb c DQUOTE then go stk (InStr false [] SPlain)
  else if Ascii.eqb c "-" then
    go stk (InNum NMinus {| neg := true; mant := 0; fracLen := 0;
                            eneg := false; expo := 0 |})
  else if Ascii.eqb c "0" then go stk (InNum NZero noNum)
  else if isDigit c then
    go stk (InNum NInt {| neg := false; mant := digitVal c; fracLen := 0;
                          eneg := false; expo := 0 |})
  else if Ascii.eqb c "t" then go stk (InLit (chars "rue") (JBool true))
  else if Ascii.eqb c "f" then go stk (InLit (chars "alse") (JBool false))
  else if Ascii.eqb c "n" then go stk (InLit (chars "ull") JNull)
  else None.

(** One character in any mode but a number. *)
Definition stepPlain (s : state) (c : ascii) : option state :=
  let stay := Some s in
  let go (stk : list frame) (m : mode) :=
    Some {| stack := stk; current := m; top := top s |} in
  match current s with
  | Value =>
      if isWhiteSpace c then stay else startValue (stack s) c
  | ArrStart =>
      if isWhiteSpace c then stay
      else if Ascii.eqb c "]" then
        match stack s with
        | InArray _ :: below => complete below (JArr [])
        | _ => None
        end
      else startValue (stack s) c
  | ObjStart =>
      if isWhiteSpace c then stay
      else if Ascii.eqb c "}" then
        match stack s with
        | InObject _ _ :: below => complete below (JObj [])
        | _ => None
        end
      else if Ascii.eqb c DQUOTE then go (stack s) (InStr true [] SPlain)
      else None
  | ObjKey =>
      if isWhiteSpace c then stay
      else if Ascii.eqb c DQUOTE then go (stack s) (InStr true [] SPlain)
      else None
  | Colon =>
      if isWhiteSpace c then stay
      else if Ascii.eqb c ":" then go (stack s) Value
      else None
  | After =>
      if isWhiteSpace c then stay
      else
        match stack s with
        | InArray done :: below =>
            if Ascii.eqb c "," then go (stack s) Value
            else if Ascii.eqb c "]" then complete below (JArr (rev done))
            else None
        | InObject done None :: below =>
            if Ascii.eqb c "," then go (stack s) ObjKey
            else if Ascii.eqb c "}" then complete below (JObj (members done))
            else None
        | _ => None
        end
  | InStr iskey acc SPlain =>
      if Ascii.eqb c DQUOTE then completeString (stack s) iskey (str (rev acc))
      else if Ascii.eqb c "\" then go (stack s) (InStr iskey acc SEscape)
      else if (code c <? 32)%nat then None
      else go (stack s) (InStr iskey (c :: acc) SPlain)
  | InStr iskey acc SEscape =>
      if Ascii.eqb c "u" then go (stack s) (InStr iskey acc (SHex []))
      else
        match escapeChar c with
        | Some e => go (stack s) (InStr iskey (e :: acc) SPlain)
        | None => None
        end
  | InStr iskey acc (SHex ds) =>
      match hexVal c with
      | Some d =>
          match ds with
          | [d2; d1; d0] =>
              let u := (((d0 * 16 + d1) * 16 + d2) * 16 + d)%Z in
              go (stack s) (InStr iskey (appendCodeUnit u acc) SPlain)
          | _ => go (stack s) (InStr iskey acc (SHex (d :: ds)))
          end
      | None => None
      end
  | InLit [] _ => None
  | InLit [e] v => if Ascii.eqb c e then complete (stack s) v else None
  | InLit (e :: rest) v =>
      if Ascii.eqb c e then go (stack s) (InLit rest v) else None
  | InNum _ _ => None
  end.

(** One character: inside a number, a character that does not continue it
    ends the number and is read again after it. *)
Definition step (s : state) (c : ascii) : option state :=
  match current s with
  | InNum st a =>
      match numStep st a c with
      | Some (st', a') =>
          Some {| stack := stack s; current := InNum st' a'; top := top s |}
      | None =>
          if numAccepting st then
            match complete (stack s) (JNum (numValue a)) with
            | Some s' => stepPlain s' c
            | None => None
            end
          else None
      end
  | _ => stepPlain s c
  end.

Fixpoint run (s : state) (l : list ascii) : option state :=
  match l with
  | [] => Some s
  | c :: rest =>
      match step s c with
      | Some s' => run s' rest
      | None => None
      end
  end.

(** The end of the text: a number in progress ends here; the text is
    accepted when exactly one value is complete and nothing is open. *)
Definition finish (s : state) : option JSValue :=
  let s' :=
    match current s with
    | InNum st a =>
        if numAccepting st then complete (stack s) (JNum (numValue a))
        else None
    | _ => Some s
    end in
  match s' with
  | Some {| stack := []; current := After; top := Some v |} => Some v
  | _ => None
  end.

Definition initial : state :=
  {| stack := []; current := Value; top := None |}.

(** [JSON.parse(text)]: the value, or [None] for the SyntaxError. *)
Definition parse (text : string) : option JSValue :=
  match run initial (chars text) with
  | Some s => finish s
  | None => None
  end.

End JSON.

(** ** The prop decoder *)

(** [parseProps]: an absent or empty attribute gives the empty bag; a
    text that parses gives what [JSON.parse] returns; a SyntaxError is
    caught and gives the empty bag. *)
Definition parseProps (value : option string) : JSValue :=
  match value with
  | None => JObj []
  | Some text =>
      if isEmptyString text then JObj []
      else
        match JSON.parse text with
        | Some v => v
        | None => JObj []
        end
  end.

(** ** DOM nodes *)

(** The nodes a component builds: text nodes and elements with their
    inline style, their [data-*] attributes and their children.  A style
    holds the text last assigned to each property; what the CSS engine
    makes of it is not part of the model. *)
#[warnings="-register-all"]
Inductive Node : Type :=
| Text (data : DOMString)
| Element (localName : string)
          (style : list (string * DOMString))
          (dataset : list (string * DOMString))
          (children : list Node).

(** [document.createElement(name)]. *)
Definition createElement (name : string) : Node := Element name [] [] [].

(** [parent.appendChild(child)], the child being a new node. *)
Definition appendChild (parent child : Node) : Node :=
  match parent with
  | Element n st ds ch => Element n st ds (ch ++ [child])
  | Text _ => parent
  end.

(** [Object.assign(node.style, props)]: each property in turn. *)
Definition assignStyle (node : Node) (props : list (string * DOMString))
  : Node :=
  match node with
  | Element n st ds ch =>
      Element n (fold_left (fun acc kv => assign (fst kv) (snd kv) acc)
                           props st) ds ch
  | Text _ => node
  end.

(** [node.style.key = value]. *)
Definition setStyle (node : Node) (key : string) (value : DOMString) : Node :=
  assignStyle node [(key, value)].

Definition getStyle (node : Node) (key : string) : option DOMString :=
  match node with
  | Element _ st _ _ => lookup key st
  | Text _ => None
  end.

(** [node.dataset.key = value]. *)
Definition setData (node : Node) (key : string) (value : DOMString) : Node :=
  match node with
  | Element n st ds ch => Element n st (assign key value ds) ch
  | Text _ => node
  end.

(** [node.dataset.key]. *)
Definition getData (node : Node) (key : string) : option DOMString :=
  match node with
  | Element _ _ ds _ => lookup key ds
  | Text _ => None
  end.

(** [node.textContent = text]: the children are replaced by one text
    node, or by nothing when the text is empty. *)
Definition setTextContent (node : Node) (text : DOMString) : Node :=
  match node with
  | Element n st ds _ =>
      Element n st ds (if isEmptyText text then [] else [Text text])
  | Text _ => Text text
  end.

(** [node.textContent]: the text of the descendants in tree order. *)
Fixpoint textContent (node : Node) : DOMString :=
  match node with
  | Text data => data
  | Element _ _ _ ch => flat_map textContent ch
  end.

Definition childrenOf (node : Node) : list Node :=
  match node with
  | Element _ _ _ ch => ch
  | Text _ => []
  end.

(** A node below a list of siblings: the child indices from the top. *)
Definition Path : Type := list nat.

Fixpoint nodeAt (nodes : list Node) (p : Path) : option Node :=
  match p with
  | [] => None
  | [i] => nth_error nodes i
  | i :: rest =>
      match nth_error nodes i with
      | Some n => nodeAt (childrenOf n) rest
      | None => None
      end
  end.

Fixpoint updateNth {A : Type} (f : A -> A) (i : nat) (l : list A) : list A :=
  match l, i with
  | [], _ => []
  | x :: rest, O => f x :: rest
  | x :: rest, S j => x :: updateNth f j rest
  end.

Definition withChildren (f : list Node -> list Node) (n : Node) : Node :=
  match n with
  | Element name st ds ch => Element name st ds (f ch)
  | Text _ => n
  end.

(** Applies [f] to the node at [p]; nothing changes when there is none. *)
Fixpoint updateAt (f : Node -> Node) (p : Path) (nodes : list Node)
  : list Node :=
  match p with
  | [] => nodes
  | [i] => updateNth f i nodes
  | i :: rest => updateNth (withChildren (updateAt f rest)) i nodes
  end.

(** ** Elements of the document *)

(** An element of the host document that code refers to by identity: a
    scope, a presentation root, a component instance.  Its light DOM, which
    a component owns outright, is the node list [childNodes].
    [customProperties] is what [getComputedStyle] reports for the custom
    properties of the element; [barNodes] and [tickHandler] are the
    private fields of [MotionBarsElement], the bars being named by their
    place in [childNodes] and a handler by the identity of its closure. *)
Record HTMLElement : Type := {
  tagName : string;
  attributes : list (string * string);
  parentNode : option nat;
  customProperties : list (string * string);
  eventListeners : list (string * nat);
  childNodes : list Node;
  barNodes : list Path;
  tickHandler : option nat
}.

Definition setChildNodes (el : HTMLElement) (ch : list Node) : HTMLElement :=
  {| tagName := tagName el; attributes := attributes el;
     parentNode := parentNode el; customProperties := customProperties el;
     eventListeners := eventListeners el; childNodes := ch;
     barNodes := barNodes el; tickHandler := tickHandler el |}.

Definition setBarNodes (el : HTMLElement) (bars : list Path) : HTMLElement :=
  {| tagName := tagName el; attributes := attributes el;
     parentNode := parentNode el; customProperties := customProperties el;
     eventListeners := eventListeners el; childNodes := childNodes el;
     barNodes := bars; tickHandler := tickHandler el |}.

Definition setTickHandler (el : HTMLElement) (h : option nat) : HTMLElement :=
  {| tagName := tagName el; attributes := attributes el;
     parentNode := parentNode el; customProperties := customProperties el;
     eventListeners := eventListeners el; childNodes := childNodes el;
     barNodes := barNodes el; tickHandler := h |}.

Definition setParentNode (el : HTMLElement) (p : option nat) : HTMLElement :=
  {| tagName := tagName el; attributes := attributes el;
     parentNode := p; customProperties := customProperties el;
     eventListeners := eventListeners el; childNodes := childNodes el;
     barNodes := barNodes el; tickHandler := tickHandler el |}.

Definition setAttributes (el : HTMLElement) (a : list (string * string))
  : HTMLElement :=
  {| tagName := tagName el; attributes := a;
     parentNode := parentNode el; customProperties := customProperties el;
     eventListeners := eventListeners el; childNodes := childNodes el;
     barNodes := barNodes el; tickHandler := tickHandler el |}.

Definition setEventListeners (el : HTMLElement) (l : list (string * nat))
  : HTMLElement :=
  {| tagName := tagName el; attributes := attributes el;
     parentNode := parentNode el; customProperties := customProperties el;
     eventListeners := l; childNodes := childNodes el;
     barNodes := barNodes el; tickHandler := tickHandler el |}.

(** [el.getAttribute(name)]. *)
Definition getAttribute (el : HTMLElement) (name : string) : option string :=
  lookup name (attributes el).

(** [this.appendChild(node)] on a component instance. *)
Definition hostAppendChild (el : HTMLElement) (node : Node) : HTMLElement :=
  setChildNodes el (childNodes el ++ [node]).

(** The loop of [clear]: while there is a first child, remove it. *)
Fixpoint removeChildren (children : list Node) : list Node :=
  match children with
  | [] => []
  | firstChild :: rest => removeChildren rest
  end.

(** [clear(el)]. *)
Definition clear (el : HTMLElement) : HTMLElement :=
  setChildNodes el (removeChildren (childNodes el)).

(** [makeText(text, style)]. *)
Definition makeText (text : DOMString) (style : list (string * DOMString))
  : Node :=
  let node := createElement "div" in
  let node := setTextContent node text in
  let node := assignStyle node style in
  node.

Definition BASE_FONT : string :=
  json "'DM Sans', 'Helvetica Neue', Arial, sans-serif".
Definition HEADING_FONT : string :=
  json "'Space Grotesk', 'Helvetica Neue', Arial, sans-serif".

Module BRAND_COLORS.
Definition notBlack : string := "#0f1117".
Definition notWhite : string := "#e8eaf0".
Definition muted : string := "#9aa4b2".
Definition accent : string := "#7aa2f7".
End BRAND_COLORS.

(** ** The document and the theme *)

(** The document: its root element ([document.documentElement]), whose
    identity is 0, the other elements by identity, and the closures that
    serve as tick handlers: the identity of a closure and the instance it
    captured as [this]. *)
Record Document : Type := {
  documentElement : HTMLElement;
  elements : list (nat * HTMLElement);
  closures : list (nat * nat)
}.

Fixpoint find {A : Type} (k : nat) (l : list (nat * A)) : option A :=
  match l with
  | [] => None
  | (k', v) :: rest => if Nat.eqb k k' then Some v else find k rest
  end.

Fixpoint store {A : Type} (k : nat) (v : A) (l : list (nat * A))
  : list (nat * A) :=
  match l with
  | [] => [(k, v)]
  | (k', v') :: rest =>
      if Nat.eqb k k' then (k, v) :: rest else (k', v') :: store k v rest
  end.

Definition getElement (doc : Document) (id : nat) : option HTMLElement :=
  if Nat.eqb id 0 then Some (documentElement doc) else find id (elements doc).

Definition putElement (doc : Document) (id : nat) (el : HTMLElement)
  : Document :=
  if Nat.eqb id 0
  then {| documentElement := el; elements := elements doc;
          closures := closures doc |}
  else {| documentElement := documentElement doc;
          elements := store id el (elements doc);
          closures := closures doc |}.

(** The type selectors [vml, videoml, video-ml]; a type selector matches
    an HTML element whatever the case of its name. *)
Definition isPresentationRoot (el : HTMLElement) : bool :=
  let name := toLowerCase (tagName el) in
  (String.eqb name "vml" || String.eqb name "videoml"
   || String.eqb name "video-ml")%bool.

(** [el.closest("vml, videoml, video-ml")]: the element itself or its
    nearest ancestor that matches, with its identity when it is an
    ancestor.  [fuel] bounds the walk by the number of elements. *)
Fixpoint closestFrom (fuel : nat) (doc : Document) (self : option nat)
  (el : HTMLElement) : option (option nat * HTMLElement) :=
  if isPresentationRoot el then Some (self, el)
  else
    match fuel, parentNode el with
    | S fuel', Some p =>
        match getElement doc p with
        | Some parent => closestFrom fuel' doc (Some p) parent
        | None => None
        end
    | _, _ => None
    end.

Definition closest (doc : Document) (el : HTMLElement)
  : option (option nat * HTMLElement) :=
  closestFrom (S (List.length (elements doc))) doc None el.

Record Theme : Type := {
  background : string;
  surface : string;
  text : string;
  muted : string;
  accent : string;
  recess : string
}.

(** [getComputedStyle(el).getPropertyValue(name)]: the empty string when
    the property is not set. *)
Definition getPropertyValue (el : HTMLElement) (name : string) : string :=
  match lookup name (customProperties el) with
  | Some v => v
  | None => ""
  end.

(** [readCssVar(el, name)]: the computed value, trimmed, or [null] when
    that is empty. *)
Definition readCssVar (el : HTMLElement) (name : string) : option string :=
  let value := trim (getPropertyValue el name) in
  if isEmptyString value then None else Some value.

(** The scope [root ?? document.documentElement]. *)
Definition scopeOf (doc : Document) (root : option HTMLElement)
  : HTMLElement :=
  match root with
  | Some el => el
  | None => documentElement doc
  end.

(** [resolveTheme(root)]. *)
Definition resolveTheme (doc : Document) (root : option HTMLElement) : Theme :=
  let scope := scopeOf doc root in
  let background := readCssVar scope "--background" in
  let surface := readCssVar scope "--card" in
  let text := readCssVar scope "--foreground" in
  let muted := readCssVar scope "--muted-foreground" in
  let accent := readCssVar scope "--primary" in
  let recess := readCssVar scope "--recess" in
  let format (value : option string) (fallback : string) :=
    match value with
    | Some v => if isEmptyString v then fallback else ("hsl(" ++ v ++ ")")%string
    | None => fallback
    end in
  {| background := format background BRAND_COLORS.notBlack;
     surface := format surface "#111827";
     text := format text BRAND_COLORS.notWhite;
     muted := format muted BRAND_COLORS.muted;
     accent := format accent BRAND_COLORS.accent;
     recess := format recess "#0b1220" |}.

(** [getRootTheme(el)]. *)
Definition getRootTheme (doc : Document) (el : HTMLElement) : Theme :=
  let root := option_map snd (closest doc el) in
  resolveTheme doc root.

(** [makeCard(padding)]: the new node has no ancestor and is no
    presentation root, so its [closest] is [null]. *)
Definition makeCard (doc : Document) (padding : Z) : Node :=
  let node := createElement "div" in
  let theme := resolveTheme doc None in
  assignStyle node
    [ ("display", lit "flex");
      ("flexDirection", lit "column");
      ("gap", lit "12px");
      ("padding", [Digits (numZ padding); Chars "px"]);
      ("borderRadius", lit "18px");
      ("background", lit (surface theme));
      ("color", lit (text theme));
      ("fontFamily", lit BASE_FONT);
      ("boxSizing", lit "border-box");
      ("width", lit "100%") ].

(** ** The components *)

(** A style object whose values are string literals. *)
Definition css (props : list (string * string)) : list (string * DOMString) :=
  map (fun kv => (fst kv, lit (snd kv))) props.

(** The end of every [render]: [this.appendChild(wrap)] when the
    statements before it built the subtree; when one of them threw, the
    exception leaves [render] and [this] stays as [clear] left it. *)
Definition commit (this : HTMLElement) (built : result Node)
  : HTMLElement * result unit :=
  match built with
  | Ok node => (hostAppendChild this node, Ok tt)
  | Throw e => (this, Throw e)
  end.

(** [if (cond) parent.appendChild(makeText(String(value), style))]. *)
Definition appendTextIf (cond : bool) (parent : Node) (value : JSValue)
  (style : list (string * DOMString)) : Node :=
  if cond then appendChild parent (makeText (ToString value) style)
  else parent.

Definition EYEBROW_STYLE : list (string * DOMString) :=
  css [ ("fontSize", "18px"); ("letterSpacing", "0.24em");
        ("textTransform", "uppercase"); ("opacity", "0.6") ].

Definition TITLE_STYLE : list (string * DOMString) :=
  css [ ("fontSize", "48px"); ("fontWeight", "600");
        ("fontFamily", HEADING_FONT) ].

Definition SUBTITLE_STYLE : list (string * DOMString) :=
  css [ ("fontSize", "24px"); ("opacity", "0.8") ].

(** [TitleSlideElement.render]. *)
Definition TitleSlideElement_render (doc : Document) (this : HTMLElement)
  : HTMLElement * result unit :=
  let props := parseProps (getAttribute this "props") in
  let this := clear this in
  let theme := getRootTheme doc this in
  let wrap := createElement "div" in
  commit this (
    color <- Get props "color" ;;
    let wrap := assignStyle wrap
      (css [ ("display", "flex"); ("flexDirection", "column");
             ("justifyContent", "center"); ("alignItems", "center");
             ("height", "100%"); ("width", "100%") ]
       ++ [ ("color", ToString (color ?? JStr (text theme))) ]
       ++ css [ ("fontFamily", BASE_FONT); ("textAlign", "center");
                ("padding", "72px"); ("boxSizing", "border-box") ]) in
    eyebrow <- Get props "eyebrow" ;;
    let wrap := appendTextIf (ToBoolean eyebrow) wrap eyebrow
      (css [ ("fontSize", "18px"); ("letterSpacing", "0.24em");
             ("textTransform", "uppercase"); ("opacity", "0.6");
             ("marginBottom", "18px"); ("fontFamily", BASE_FONT) ]) in
    title <- Get props "title" ;;
    let wrap := appendTextIf (ToBoolean title) wrap title
      (css [ ("fontSize", "64px"); ("fontWeight", "600");
             ("marginBottom", "18px"); ("fontFamily", HEADING_FONT) ]) in
    subtitle <- Get props "subtitle" ;;
    let wrap := appendTextIf (ToBoolean subtitle) wrap subtitle
      (css [ ("fontSize", "28px"); ("opacity", "0.8");
             ("fontFamily", BASE_FONT) ]) in
    Ok wrap).

(** The three header lines the screens share: eyebrow, title, subtitle. *)
Definition appendHeader (props : JSValue) (parent : Node) : result Node :=
  eyebrow <- Get props "eyebrow" ;;
  let parent := appendTextIf (ToBoolean eyebrow) parent eyebrow EYEBROW_STYLE in
  title <- Get props "title" ;;
  let parent := appendTextIf (ToBoolean title) parent title TITLE_STYLE in
  subtitle <- Get props "subtitle" ;;
  let parent := appendTextIf (ToBoolean subtitle) parent subtitle
                  SUBTITLE_STYLE in
  Ok parent.

(** [BulletListElement.render]. *)
Definition BulletListElement_render (doc : Document) (this : HTMLElement)
  : HTMLElement * result unit :=
  let props := parseProps (getAttribute this "props") in
  let this := clear this in
  let theme := getRootTheme doc this in
  let wrap := createElement "div" in
  commit this (
    color <- Get props "color" ;;
    let wrap := assignStyle wrap
      (css [ ("display", "flex"); ("flexDirection", "column");
             ("gap", "18px"); ("padding", "64px 72px");
             ("boxSizing", "border-box") ]
       ++ [ ("color", ToString (color ?? JStr (text theme))) ]
       ++ css [ ("fontFamily", BASE_FONT) ]) in
    wrap <- appendHeader props wrap ;;
    let list := createElement "ul" in
    let list := assignStyle list
      (css [ ("margin", "0"); ("paddingLeft", "28px"); ("fontSize", "26px");
             ("lineHeight", "1.45") ]) in
    let items := GetOpt (GetOpt props "bullets") "items" ?? JArr [] in
    items <- iterate items ;;
    let list := fold_left (fun list item =>
        let li := createElement "li" in
        let li := setTextContent li (ToString item) in
        appendChild list li) items list in
    let wrap := appendChild wrap list in
    Ok wrap).

(** The default of [values] in [MotionBarsElement.render]. *)
Definition DEFAULT_VALUES : list JSValue :=
  map (fun z => JNum (numZ z)) [38; 52; 24; 71; 43; 66]%Z.

(** [Number(v) || 0]. *)
Definition numberOrZero (v : JSValue) : number :=
  let n := ToNumber v in
  if Num.truthy n then n else Fin 0.

Definition tenth : number := Fin (1 # 10).

(** The bar of one value: [bar] in the body of [values.forEach] in
    [MotionBarsElement.render], with its base proportion in [data-base]. *)
Definition makeBar (base : number) (accent : JSValue) : Node :=
  let bar := createElement "div" in
  let bar := setData bar "base" (ToString (JNum base)) in
  assignStyle bar
    [ ("width", lit "100%");
      ("height", [Digits (Num.mul (Num.max2 tenth base) (numZ 100));
                  Chars "%"]);
      ("background", ToString accent);
      ("borderRadius", lit "12px");
      ("transformOrigin", lit "bottom");
      ("transform", [Chars "scaleY("; Digits (Num.max2 tenth base);
                     Chars ")"]);
      ("transition", lit "none");
      ("willChange", lit "transform") ].

(** The column of one bar, the body of [values.forEach] up to
    [chart.appendChild(col)]. *)
Definition makeBarColumn (max : number) (accent : JSValue)
  (labels : list JSValue) (raw : JSValue) (idx : nat) : Node :=
  let base := Num.div (numberOrZero raw) max in
  let col := createElement "div" in
  let col := assignStyle col
    (css [ ("display", "flex"); ("flexDirection", "column"); ("gap", "8px");
           ("alignItems", "center") ]) in
  let bar := makeBar base accent in
  let label := createElement "div" in
  let label := setTextContent label (ToString (Index labels idx ?? JStr "")) in
  let label := assignStyle label
    (css [ ("fontSize", "14px"); ("opacity", "0.7");
           ("textAlign", "center") ]) in
  let col := appendChild col bar in
  let col := if negb (isEmptyText (textContent label))
             then appendChild col label else col in
  col.

(** [values.forEach((raw, idx) => ...)]: the chart with one more column
    per value, from index [idx] on. *)
Fixpoint appendBars (max : number) (accent : JSValue) (labels : list JSValue)
  (values : list JSValue) (idx : nat) (chart : Node) : Node :=
  match values with
  | [] => chart
  | raw :: rest =>
      appendBars max accent labels rest (S idx)
        (appendChild chart (makeBarColumn max accent labels raw idx))
  end.

(** [MotionBarsElement.render].  Each [this.barNodes.push(bar)] records
    the bar by the place it takes in the light DOM: first child of its
    column, the column at its index in the chart, the chart after the
    header lines of [wrap], [wrap] after what [this] holds. *)
Definition MotionBarsElement_render (doc : Document) (this : HTMLElement)
  : HTMLElement * result unit :=
  let props := parseProps (getAttribute this "props") in
  let this := clear this in
  let theme := getRootTheme doc this in
  let wrap := createElement "div" in
  let built :=
    color <- Get props "color" ;;
    let wrap := assignStyle wrap
      (css [ ("display", "flex"); ("flexDirection", "column");
             ("gap", "18px"); ("padding", "64px 72px");
             ("boxSizing", "border-box") ]
       ++ [ ("color", ToString (color ?? JStr (text theme))) ]
       ++ css [ ("fontFamily", BASE_FONT); ("height", "100%");
                ("justifyContent", "center") ]) in
    wrap <- appendHeader props wrap ;;
    let chart := createElement "div" in
    let chart := assignStyle chart
      (css [ ("display", "grid");
             ("gridTemplateColumns", "repeat(6, minmax(0, 1fr))");
             ("gap", "18px"); ("alignItems", "end"); ("height", "320px");
             ("paddingTop", "8px") ]) in
    pvalues <- Get props "values" ;;
    let values :=
      match pvalues with JArr elems => elems | _ => DEFAULT_VALUES end in
    plabels <- Get props "labels" ;;
    let labels := match plabels with JArr elems => elems | _ => [] end in
    let max := Math_max (map numberOrZero values ++ [numZ 1]) in
    paccent <- Get props "accent" ;;
    let accent := paccent ?? JStr (accent theme) in
    let chart := appendBars max accent labels values 0 chart in
    let bars :=
      map (fun idx => [List.length (childNodes this);
                       List.length (childrenOf wrap); idx; 0%nat])
          (seq 0 (List.length values)) in
    let wrap := appendChild wrap chart in
    Ok (wrap, bars) in
  match built with
  | Ok (wrap, bars) => (hostAppendChild (setBarNodes this bars) wrap, Ok tt)
  | Throw e => (this, Throw e)
  end.

(** [TwoColumnElement.render]. *)
Definition TwoColumnElement_render (doc : Document) (this : HTMLElement)
  : HTMLElement * result unit :=
  let props := parseProps (getAttribute this "props") in
  let this := clear this in
  let theme := getRootTheme doc this in
  let wrap := createElement "div" in
  commit this (
    color <- Get props "color" ;;
    let wrap := assignStyle wrap
      (css [ ("display", "grid"); ("gridTemplateColumns", "1fr 1fr");
             ("gap", "32px"); ("padding", "64px 72px");
             ("boxSizing", "border-box") ]
       ++ [ ("color", ToString (color ?? JStr (text theme))) ]
       ++ css [ ("fontFamily", BASE_FONT); ("height", "100%") ]) in
    let header := createElement "div" in
    let header := setStyle header "gridColumn" (lit "1 / -1") in
    header <- appendHeader props header ;;
    let wrap := appendChild wrap header in
    let left := createElement "div" in
    let right := createElement "div" in
    let pane (side field : string) (otherwise : string) : DOMString :=
      ToString (GetOpt (GetOpt (GetOpt props side) "props") field
                ?? JStr otherwise) in
    let LABEL := css [ ("fontSize", "22px"); ("fontWeight", "600");
                       ("marginBottom", "12px");
                       ("fontFamily", HEADING_FONT) ] in
    let BODY := css [ ("fontSize", "20px"); ("opacity", "0.85") ] in
    let left := appendChild left (makeText (pane "left" "label" "Left") LABEL) in
    let left := appendChild left (makeText (pane "left" "text" "") BODY) in
    let right :=
      appendChild right (makeText (pane "right" "label" "Right") LABEL) in
    let right := appendChild right (makeText (pane "right" "text" "") BODY) in
    let wrap := appendChild wrap left in
    let wrap := appendChild wrap right in
    Ok wrap).

(** [ChapterHeadingElement.render]. *)
Definition ChapterHeadingElement_render (doc : Document) (this : HTMLElement)
  : HTMLElement * result unit :=
  let props := parseProps (getAttribute this "props") in
  let this := clear this in
  let theme := getRootTheme doc this in
  let wrap := createElement "div" in
  commit this (
    color <- Get props "color" ;;
    let wrap := assignStyle wrap
      (css [ ("display", "flex"); ("alignItems", "center"); ("gap", "32px");
             ("padding", "64px 72px"); ("boxSizing", "border-box") ]
       ++ [ ("color", ToString (color ?? JStr (text theme))) ]
       ++ css [ ("fontFamily", BASE_FONT); ("height", "100%") ]) in
    pshow <- Get props "showNumber" ;;
    let showNumber := isNotFalse pshow in
    pnumber <- Get props "number" ;;
    let number := makeText (ToString (pnumber ?? JStr "01"))
      (css [ ("fontSize", "80px"); ("fontWeight", "700"); ("opacity", "0.8");
             ("fontFamily", HEADING_FONT) ]) in
    let titles := createElement "div" in
    title <- Get props "title" ;;
    let titles := appendTextIf (ToBoolean title) titles title TITLE_STYLE in
    subtitle <- Get props "subtitle" ;;
    let titles :=
      appendTextIf (ToBoolean subtitle) titles subtitle SUBTITLE_STYLE in
    let wrap := if showNumber then appendChild wrap number else wrap in
    let wrap := appendChild wrap titles in
    Ok wrap).

(** The template [`${props?.position?.x ?? 0}px`]. *)
Definition positionPx (props : JSValue) (axis : string) : DOMString :=
  ToString (GetOpt (GetOpt props "position") axis ?? JNum (numZ 0))
  ++ lit "px".

(** [VideoTitleElement.render]. *)
Definition VideoTitleElement_render (doc : Document) (this : HTMLElement)
  : HTMLElement * result unit :=
  let props := parseProps (getAttribute this "props") in
  let this := clear this in
  let theme := getRootTheme doc this in
  commit this (
    ptext <- Get props "text" ;;
    fontSize <- Get props "fontSize" ;;
    color <- Get props "color" ;;
    let node := makeText (ToString (ptext ?? JStr ""))
      [ ("position", lit "absolute");
        ("left", positionPx props "x");
        ("top", positionPx props "y");
        ("fontSize", ToString (fontSize ?? JNum (numZ 48)) ++ lit "px");
        ("color", ToString (color ?? JStr (text theme)));
        ("fontFamily", lit HEADING_FONT);
        ("fontWeight", lit "600") ] in
    Ok node).

(** [VideoSubtitleElement.render]. *)
Definition VideoSubtitleElement_render (doc : Document) (this : HTMLElement)
  : HTMLElement * result unit :=
  let props := parseProps (getAttribute this "props") in
  let this := clear this in
  let theme := getRootTheme doc this in
  commit this (
    ptext <- Get props "text" ;;
    fontSize <- Get props "fontSize" ;;
    color <- Get props "color" ;;
    let node := makeText (ToString (ptext ?? JStr ""))
      [ ("position", lit "absolute");
        ("left", positionPx props "x");
        ("top", positionPx props "y");
        ("fontSize", ToString (fontSize ?? JNum (numZ 32)) ++ lit "px");
        ("color", ToString (color ?? JStr (muted theme)));
        ("fontFamily", lit BASE_FONT);
        ("fontWeight", lit "400") ] in
    Ok node).

(** [VideoRectangleElement.render]. *)
Definition VideoRectangleElement_render (doc : Document) (this : HTMLElement)
  : HTMLElement * result unit :=
  let props := parseProps (getAttribute this "props") in
  let this := clear this in
  let theme := getRootTheme doc this in
  let node := createElement "div" in
  commit this (
    width <- Get props "width" ;;
    height <- Get props "height" ;;
    color <- Get props "color" ;;
    let node := assignStyle node
      [ ("position", lit "absolute");
        ("left", positionPx props "x");
        ("top", positionPx props "y");
        ("width", ToString (width ?? JNum (numZ 100)) ++ lit "px");
        ("height", ToString (height ?? JNum (numZ 100)) ++ lit "px");
        ("background", ToString (color ?? JStr (background theme))) ] in
    Ok node).

(** [BackgroundElement.render]. *)
Definition BackgroundElement_render (doc : Document) (this : HTMLElement)
  : HTMLElement * result unit :=
  let props := parseProps (getAttribute this "props") in
  let this := clear this in
  let theme := getRootTheme doc this in
  let node := createElement "div" in
  commit this (
    color <- Get props "color" ;;
    pbackground <- Get props "background" ;;
    let node := assignStyle node
      [ ("position", lit "absolute");
        ("inset", lit "0");
        ("width", lit "100%");
        ("height", lit "100%");
        ("background",
         ToString (color ?? pbackground ?? JStr (background theme))) ] in
    Ok node).

(** [ProgressBarElement.render]. *)
Definition ProgressBarElement_render (doc : Document) (this : HTMLElement)
  : HTMLElement * result unit :=
  let props := parseProps (getAttribute this "props") in
  let this := clear this in
  let theme := getRootTheme doc this in
  let wrap := createElement "div" in
  let wrap := assignStyle wrap
    (css [ ("display", "flex"); ("flexDirection", "column"); ("gap", "12px");
           ("padding", "32px"); ("width", "100%");
           ("boxSizing", "border-box"); ("color", text theme);
           ("fontFamily", BASE_FONT) ]) in
  commit this (
    plabel <- Get props "label" ;;
    ptitle <- Get props "title" ;;
    let label := plabel ?? ptitle ?? JStr "Progress" in
    let wrap := appendChild wrap
      (makeText (ToString label)
         (css [ ("fontSize", "20px"); ("opacity", "0.8") ])) in
    let bar := createElement "div" in
    let bar := assignStyle bar
      (css [ ("height", "12px"); ("background", surface theme);
             ("borderRadius", "999px"); ("overflow", "hidden") ]) in
    let fill := createElement "div" in
    progress <- Get props "progress" ;;
    percent <- Get props "percent" ;;
    let pct :=
      Num.max2 (numZ 0)
        (Num.min2 (numZ 100)
           (ToNumber (progress ?? percent ?? JNum (numZ 50)))) in
    let fill := assignStyle fill
      [ ("height", lit "100%");
        ("width", [Digits pct; Chars "%"]);
        ("background", lit (accent theme)) ] in
    let bar := appendChild bar fill in
    let wrap := appendChild wrap bar in
    Ok wrap).

(** A card restyled from the theme of the instance:
    [card.style.background = theme.surface; card.style.color = theme.text]. *)
Definition themedCard (doc : Document) (theme : Theme) (padding : Z) : Node :=
  let card := makeCard doc padding in
  let card := setStyle card "background" (lit (surface theme)) in
  let card := setStyle card "color" (lit (text theme)) in
  card.

Definition LDQUO : string := str (map ascii_of_nat [226; 128; 156]).
Definition RDQUO : string := str (map ascii_of_nat [226; 128; 157]).

(** [QuoteCardElement.render]. *)
Definition QuoteCardElement_render (doc : Document) (this : HTMLElement)
  : HTMLElement * result unit :=
  let props := parseProps (getAttribute this "props") in
  let this := clear this in
  let theme := getRootTheme doc this in
  let card := themedCard doc theme 36 in
  commit this (
    quote <- Get props "quote" ;;
    ptext <- Get props "text" ;;
    let card := appendChild card
      (makeText
         (lit LDQUO ++ ToString (quote ?? ptext ?? JStr "Quote") ++ lit RDQUO)
         (css [ ("fontSize", "30px"); ("lineHeight", "1.4");
                ("fontFamily", HEADING_FONT) ])) in
    attribution <- Get props "attribution" ;;
    author <- Get props "author" ;;
    let card :=
      appendTextIf (ToBoolean attribution || ToBoolean author) card
        (attribution ?? author)
        (css [ ("fontSize", "18px"); ("opacity", "0.7") ]) in
    Ok card).

(** [LowerThirdElement.render]. *)
Definition LowerThirdElement_render (doc : Document) (this : HTMLElement)
  : HTMLElement * result unit :=
  let props := parseProps (getAttribute this "props") in
  let this := clear this in
  let theme := getRootTheme doc this in
  let card := themedCard doc theme 20 in
  let card := assignStyle card
    (css [ ("position", "absolute"); ("left", "48px"); ("bottom", "48px");
           ("maxWidth", "520px") ]) in
  commit this (
    title <- Get props "title" ;;
    name <- Get props "name" ;;
    let card :=
      appendTextIf (ToBoolean title || ToBoolean name) card (title ?? name)
        (css [ ("fontSize", "26px"); ("fontWeight", "600");
               ("fontFamily", HEADING_FONT) ]) in
    subtitle <- Get props "subtitle" ;;
    role <- Get props "role" ;;
    let card :=
      appendTextIf (ToBoolean subtitle || ToBoolean role) card
        (subtitle ?? role)
        (css [ ("fontSize", "18px"); ("opacity", "0.8") ]) in
    Ok card).

(** [CalloutElement.render]. *)
Definition CalloutElement_render (doc : Document) (this : HTMLElement)
  : HTMLElement * result unit :=
  let props := parseProps (getAttribute this "props") in
  let this := clear this in
  let theme := getRootTheme doc this in
  let card := themedCard doc theme 28 in
  let card := assignStyle card
    (css [ ("maxWidth", "720px"); ("margin", "48px") ]) in
  commit this (
    title <- Get props "title" ;;
    let card := appendTextIf (ToBoolean title) card title
      (css [ ("fontSize", "28px"); ("fontWeight", "600") ]) in
    body <- Get props "body" ;;
    ptext <- Get props "text" ;;
    let card :=
      appendTextIf (ToBoolean body || ToBoolean ptext) card (body ?? ptext)
        (css [ ("fontSize", "20px"); ("opacity", "0.85") ]) in
    Ok card).

(** [ChyronElement.render]. *)
Definition ChyronElement_render (doc : Document) (this : HTMLElement)
  : HTMLElement * result unit :=
  let props := parseProps (getAttribute this "props") in
  let this := clear this in
  let theme := getRootTheme doc this in
  let card := themedCard doc theme 18 in
  let card := assignStyle card
    (css [ ("position", "absolute"); ("left", "48px"); ("bottom", "48px");
           ("maxWidth", "640px") ]) in
  commit this (
    label <- Get props "label" ;;
    title <- Get props "title" ;;
    let card := appendChild card
      (makeText (ToString (label ?? title ?? JStr "Chyron"))
         (css [ ("fontSize", "18px"); ("opacity", "0.7") ])) in
    ptext <- Get props "text" ;;
    let card := appendTextIf (ToBoolean ptext) card ptext
      (css [ ("fontSize", "22px") ]) in
    Ok card).

(** [CodeBlockElement.render]. *)
Definition CodeBlockElement_render (doc : Document) (this : HTMLElement)
  : HTMLElement * result unit :=
  let props := parseProps (getAttribute this "props") in
  let this := clear this in
  let theme := getRootTheme doc this in
  let pre := createElement "pre" in
  commit this (
    pcode <- Get props "code" ;;
    ptext <- Get props "text" ;;
    let pre := setTextContent pre
      (ToString (pcode ?? ptext ?? JStr "// code")) in
    let pre := assignStyle pre
      [ ("background", ToString (JStr (recess theme) ?? JStr (surface theme)));
        ("color", lit (text theme));
        ("padding", lit "24px");
        ("borderRadius", lit "18px");
        ("fontSize", lit "18px");
        ("fontFamily",
         lit "ui-monospace, SFMono-Regular, Menlo, Monaco, Consolas, monospace");
        ("lineHeight", lit "1.5");
        ("margin", lit "48px");
        ("whiteSpace", lit "pre-wrap") ] in
    Ok pre).

(** [ContentScreenElement.render]. *)
Definition ContentScreenElement_render (doc : Document) (this : HTMLElement)
  : HTMLElement * result unit :=
  let props := parseProps (getAttribute this "props") in
  let this := clear this in
  let theme := getRootTheme doc this in
  let wrap := createElement "div" in
  let wrap := assignStyle wrap
    (css [ ("display", "flex"); ("flexDirection", "column"); ("gap", "12px");
           ("padding", "64px"); ("color", text theme);
           ("fontFamily", BASE_FONT) ]) in
  commit this (
    title <- Get props "title" ;;
    let wrap := appendTextIf (ToBoolean title) wrap title TITLE_STYLE in
    subtitle <- Get props "subtitle" ;;
    let wrap := appendTextIf (ToBoolean subtitle) wrap subtitle
                  SUBTITLE_STYLE in
    Ok wrap).

(** [GridScreenElement.render]. *)
Definition GridScreenElement_render (doc : Document) (this : HTMLElement)
  : HTMLElement * result unit :=
  let props := parseProps (getAttribute this "props") in
  let this := clear this in
  let theme := getRootTheme doc this in
  let wrap := createElement "div" in
  let wrap := assignStyle wrap
    (css [ ("display", "grid");
           ("gridTemplateColumns", "repeat(3, minmax(0, 1fr))");
           ("gap", "16px"); ("padding", "48px"); ("color", text theme);
           ("fontFamily", BASE_FONT) ]) in
  commit this (
    pitems <- Get props "items" ;;
    let items := pitems ?? JArr [] in
    title <- Get props "title" ;;
    let wrap :=
      if ToBoolean title then
        let header := createElement "div" in
        let header := setStyle header "gridColumn" (lit "1 / -1") in
        let header := appendChild header
          (makeText (ToString title)
             (css [ ("fontSize", "36px"); ("fontWeight", "600");
                    ("fontFamily", HEADING_FONT) ])) in
        appendChild wrap header
      else wrap in
    items <- iterate items ;;
    let wrap := fold_left (fun wrap item =>
        let card := makeCard doc 20 in
        let card := appendChild card
          (makeText
             (ToString (GetOpt item "title" ?? GetOpt item "label"
                        ?? JStr "Item"))
             (css [ ("fontSize", "20px"); ("fontWeight", "600");
                    ("fontFamily", HEADING_FONT) ])) in
        let card := appendTextIf (ToBoolean (GetOpt item "text")) card
          (GetOpt item "text")
          (css [ ("fontSize", "16px"); ("opacity", "0.8") ]) in
        appendChild wrap card) items wrap in
    Ok wrap).

(** [ThreeColumnElement.render]. *)
Definition ThreeColumnElement_render (doc : Document) (this : HTMLElement)
  : HTMLElement * result unit :=
  let props := parseProps (getAttribute this "props") in
  let this := clear this in
  let theme := getRootTheme doc this in
  let wrap := createElement "div" in
  let wrap := assignStyle wrap
    (css [ ("display", "grid");
           ("gridTemplateColumns", "repeat(3, minmax(0, 1fr))");
           ("gap", "24px"); ("padding", "64px"); ("color", text theme);
           ("fontFamily", BASE_FONT) ]) in
  commit this (
    pcolumns <- Get props "columns" ;;
    let columns := pcolumns ?? JArr [] in
    columns <- iterate columns ;;
    let wrap := fold_left (fun wrap col =>
        let card := makeCard doc 24 in
        let card := appendChild card
          (makeText (ToString (GetOpt col "title" ?? JStr "Column"))
             (css [ ("fontSize", "22px"); ("fontWeight", "600");
                    ("fontFamily", HEADING_FONT) ])) in
        let card := appendTextIf (ToBoolean (GetOpt col "text")) card
          (GetOpt col "text")
          (css [ ("fontSize", "18px"); ("opacity", "0.85") ]) in
        appendChild wrap card) columns wrap in
    Ok wrap).

(** [DemoPlaceholderElement.connectedCallback]. *)
Definition DemoPlaceholderElement_connectedCallback (doc : Document)
  (this : HTMLElement) : HTMLElement :=
  if negb (Nat.eqb (List.length (childNodes this)) 0) then this
  else
    let card := makeCard doc 24 in
    let card := appendChild card
      (makeText
         [Chars ("Demo: <" ++ toLowerCase (tagName this) ++ ">")]
         (css [ ("fontSize", "20px"); ("fontWeight", "600") ])) in
    let card := appendChild card
      (makeText
         (lit "This demo component is a placeholder in the DOM runtime.")
         (css [ ("fontSize", "16px"); ("opacity", "0.75") ])) in
    hostAppendChild this card.

(** [FallbackElement.connectedCallback]. *)
Definition FallbackElement_connectedCallback (this : HTMLElement)
  : HTMLElement :=
  if negb (Nat.eqb (List.length (childNodes this)) 0) then this
  else
    let label := createElement "div" in
    let label :=
      setTextContent label [Chars ("<" ++ toLowerCase (tagName this) ++ ">")] in
    let label := assignStyle label
      (css [ ("fontFamily", "system-ui, sans-serif"); ("fontSize", "14px");
             ("opacity", "0.6"); ("padding", "8px") ]) in
    hostAppendChild this label.

(** The classes of the catalog that have a [render] method. *)
Inductive Component : Type :=
| TitleSlide | BulletList | MotionBars | TwoColumn | ChapterHeading
| VideoTitle | VideoSubtitle | VideoRectangle | Background | ProgressBar
| QuoteCard | LowerThird | Callout | Chyron | CodeBlock | ContentScreen
| GridScreen | ThreeColumn.

(** The render step of a component: the method [render] of its class. *)
Definition render (c : Component) (doc : Document) (this : HTMLElement)
  : HTMLElement * result unit :=
  match c with
  | TitleSlide => TitleSlideElement_render doc this
  | BulletList => BulletListElement_render doc this
  | MotionBars => MotionBarsElement_render doc this
  | TwoColumn => TwoColumnElement_render doc this
  | ChapterHeading => ChapterHeadingElement_render doc this
  | VideoTitle => VideoTitleElement_render doc this
  | VideoSubtitle => VideoSubtitleElement_render doc this
  | VideoRectangle => VideoRectangleElement_render doc this
  | Background => BackgroundElement_render doc this
  | ProgressBar => ProgressBarElement_render doc this
  | QuoteCard => QuoteCardElement_render doc this
  | LowerThird => LowerThirdElement_render doc this
  | Callout => CalloutElement_render doc this
  | Chyron => ChyronElement_render doc this
  | CodeBlock => CodeBlockElement_render doc this
  | ContentScreen => ContentScreenElement_render doc this
  | GridScreen => GridScreenElement_render doc this
  | ThreeColumn => ThreeColumnElement_render doc this
  end.

(** ** The timeline binding of the bar chart *)

Definition TICK : string := "timeline:tick".

(** [target.addEventListener(type, handler)]: a listener already in the
    list is not added again (DOM, 2.7). *)
Definition addEventListener (el : HTMLElement) (type : string) (handler : nat)
  : HTMLElement :=
  if existsb (fun l => String.eqb (fst l) type && Nat.eqb (snd l) handler)
             (eventListeners el)
  then el
  else setEventListeners el (eventListeners el ++ [(type, handler)]).

(** [target.removeEventListener(type, handler)]. *)
Definition removeEventListener (el : HTMLElement) (type : string)
  (handler : nat) : HTMLElement :=
  setEventListeners el
    (filter (fun l => negb (String.eqb (fst l) type && Nat.eqb (snd l) handler))
            (eventListeners el)).

(** Applies [f] to the element [id] of the document. *)
Definition modify (doc : Document) (id : nat) (f : HTMLElement -> HTMLElement)
  : Document :=
  match getElement doc id with
  | Some el => putElement doc id (f el)
  | None => doc
  end.

(** The identity of what [this.closest(...)] found, [this] being [id]. *)
Definition closestId (doc : Document) (id : nat) (this : HTMLElement)
  : option nat :=
  match closest doc this with
  | Some (Some ancestor, _) => Some ancestor
  | Some (None, _) => Some id
  | None => None
  end.

(** A new closure over [this]: its identity is the next free one. *)
Definition newClosure (doc : Document) (this : nat) : Document * nat :=
  let h := List.length (closures doc) in
  ({| documentElement := documentElement doc; elements := elements doc;
      closures := closures doc ++ [(h, this)] |}, h).

(** The body of the handler, the loop over [this.barNodes] from index
    [idx] on. *)
Fixpoint scaleBars (time : number) (bars : list Path) (idx : nat)
  (nodes : list Node) : list Node :=
  match bars with
  | [] => nodes
  | bar :: rest =>
      scaleBars time rest (S idx)
        (updateAt (fun node =>
            let base :=
              parseFloat (match getData node "base" with
                          | Some b => b
                          | None => lit "1"
                          end) in
            setStyle node "transform"
              [Chars "scaleY("; Scale base time idx; Chars ")"])
           bar nodes)
  end.

(** The arrow function [bindTimeline] stores in [this.tickHandler], on
    the [detail] of the event.  [time * 2 + idx] converts [time] to a
    number. *)
Definition tickHandler_call (detail : JSValue) (this : HTMLElement)
  : HTMLElement :=
  let time := GetOpt detail "time" ?? JNum (numZ 0) in
  setChildNodes this
    (scaleBars (ToNumber time) (barNodes this) 0 (childNodes this)).

(** [MotionBarsElement.bindTimeline]. *)
Definition MotionBarsElement_bindTimeline (doc : Document) (id : nat)
  : Document :=
  match getElement doc id with
  | None => doc
  | Some this =>
      match closestId doc id this with
      | None => doc
      | Some root =>
          let doc :=
            match tickHandler this with
            | Some old =>
                modify doc root (fun r => removeEventListener r TICK old)
            | None => doc
            end in
          let '(doc, h) := newClosure doc id in
          let doc := modify doc id (fun t => setTickHandler t (Some h)) in
          modify doc root (fun r => addEventListener r TICK h)
      end
  end.

(** [MotionBarsElement.render] on the instance [id] of the document. *)
Definition MotionBarsElement_renderIn (doc : Document) (id : nat)
  : Document * result unit :=
  match getElement doc id with
  | None => (doc, Ok tt)
  | Some this =>
      let '(this, outcome) := MotionBarsElement_render doc this in
      (putElement doc id this, outcome)
  end.

(** [MotionBarsElement.connectedCallback]. *)
Definition MotionBarsElement_connectedCallback (doc : Document) (id : nat)
  : Document * result unit :=
  match MotionBarsElement_renderIn doc id with
  | (doc, Ok _) => (MotionBarsElement_bindTimeline doc id, Ok tt)
  | (doc, Throw e) => (doc, Throw e)
  end.

(** [MotionBarsElement.disconnectedCallback]. *)
Definition MotionBarsElement_disconnectedCallback (doc : Document) (id : nat)
  : Document :=
  match getElement doc id with
  | None => doc
  | Some this =>
      match closestId doc id this, tickHandler this with
      | Some root, Some h =>
          modify doc root (fun r => removeEventListener r TICK h)
      | _, _ => doc
      end
  end.

(** [MotionBarsElement.attributeChangedCallback]. *)
Definition MotionBarsElement_attributeChangedCallback (doc : Document)
  (id : nat) : Document * result unit :=
  MotionBarsElement_renderIn doc id.

(** *** What the host does with a bar chart *)

(** Whether the element is in the document: its ancestors lead to the
    root element. *)
Fixpoint connectedFrom (fuel : nat) (doc : Document) (id : nat) : bool :=
  if Nat.eqb id 0 then true
  else
    match fuel, getElement doc id with
    | S fuel', Some el =>
        match parentNode el with
        | Some p => connectedFrom fuel' doc p
        | None => false
        end
    | _, _ => false
    end.

Definition isConnected (doc : Document) (id : nat) : bool :=
  connectedFrom (S (List.length (elements doc))) doc id.

(** [parent.appendChild(el)] for a bar chart [id] that has no parent: the
    DOM inserts the element, and the connected reaction runs when the
    element is in the document (HTML, custom element reactions). *)
Definition attach (doc : Document) (parent id : nat)
  : Document * result unit :=
  let doc := modify doc id (fun el => setParentNode el (Some parent)) in
  if isConnected doc id then MotionBarsElement_connectedCallback doc id
  else (doc, Ok tt).

(** [el.remove()] for a bar chart [id]: the DOM takes the element out of
    its parent first, and the disconnected reaction runs afterwards when
    the element was in the document. *)
Definition detach (doc : Document) (id : nat) : Document :=
  let was := isConnected doc id in
  let doc := modify doc id (fun el => setParentNode el None) in
  if was then MotionBarsElement_disconnectedCallback doc id else doc.

(** [el.setAttribute("props", value)] for a bar chart [id]: [props] is an
    observed attribute, so the reaction runs on every set. *)
Definition setProps (doc : Document) (id : nat) (value : string)
  : Document * result unit :=
  let doc :=
    modify doc id (fun el =>
      setAttributes el (assign "props" value (attributes el))) in
  MotionBarsElement_attributeChangedCallback doc id.

(** [target.dispatchEvent(new CustomEvent("timeline:tick", { detail }))]:
    the listeners of the target for the type run in the order they were
    added; each is the closure of a bar chart. *)
Definition dispatchTick (doc : Document) (target : nat) (detail : JSValue)
  : Document :=
  match getElement doc target with
  | None => doc
  | Some el =>
      fold_left (fun doc l =>
          if String.eqb (fst l) TICK then
            match find (snd l) (closures doc) with
            | Some this => modify doc this (tickHandler_call detail)
            | None => doc
            end
          else doc)
        (eventListeners el) doc
  end.

(** The tick listeners in the document whose closure belongs to [this]:
    its active subscriptions, as (target, closure). *)
Definition subscriptionsOn (doc : Document) (this : nat)
  (target : nat * HTMLElement) : list (nat * nat) :=
  flat_map (fun l =>
      if String.eqb (fst l) TICK then
        match find (snd l) (closures doc) with
        | Some owner =>
            if Nat.eqb owner this then [(fst target, snd l)] else []
        | None => []
        end
      else [])
    (eventListeners (snd target)).

Definition subscriptions (doc : Document) (this : nat) : list (nat * nat) :=
  flat_map (subscriptionsOn doc this)
    ((0%nat, documentElement doc) :: elements doc).

(** ** The registry *)

(** The constructors the registry can hold: the classes of the module and
    the classes [defineAlias] creates, each call making a new one. *)
Inductive Constructor : Type :=
| TitleSlideElement | BulletListElement | MotionBarsElement
| TwoColumnElement | ChapterHeadingElement | VideoTitleElement
| VideoSubtitleElement | VideoRectangleElement | BackgroundElement
| ProgressBarElement | QuoteCardElement | LowerThirdElement
| CalloutElement | ChyronElement | CodeBlockElement | ContentScreenElement
| GridScreenElement | ThreeColumnElement | DemoPlaceholderElement
| FallbackElement
| AliasElement (serial : nat) (Base : Constructor).

Scheme Equality for Constructor.

(** The definitions of a CustomElementRegistry, oldest first. *)
Definition Registry : Type := list (string * Constructor).

(** The window: [customElements] when the host has it, and how many alias
    classes have been created. *)
Record Window : Type := {
  customElements : option Registry;
  aliasClasses : nat
}.

(** The names HTML reserves although they contain a hyphen. *)
Definition RESERVED_NAMES : list string :=
  [ "annotation-xml"; "color-profile"; "font-face"; "font-face-src";
    "font-face-uri"; "font-face-format"; "font-face-name"; "missing-glyph" ].

(** A character a custom element name may hold after its first (HTML,
    PCENChar): in the ASCII range the hyphen, the dot, the underscore, the
    digits and the lower-case letters; the bytes of other characters are
    let through. *)
Definition isPCENChar (c : ascii) : bool :=
  (Ascii.eqb c "-" || Ascii.eqb c "." || Ascii.eqb c "_" || isDigit c
   || isLower c || (128 <=? code c)%nat)%bool.

(** A valid custom element name (HTML, 4.13.3): it starts with a
    lower-case ASCII letter, holds a hyphen and only name characters, and
    is not reserved. *)
Definition isValidCustomElementName (name : string) : bool :=
  match chars name with
  | first :: rest =>
      (isLower first && forallb isPCENChar rest
       && existsb (Ascii.eqb "-") rest
       && negb (existsb (String.eqb name) RESERVED_NAMES))%bool
  | [] => false
  end.

(** [customElements.get(name)]. *)
Definition customElements_get (reg : Registry) (name : string)
  : option Constructor :=
  lookup name reg.

Definition hasConstructor (reg : Registry) (ctor : Constructor) : bool :=
  existsb (fun d => Constructor_beq (snd d) ctor) reg.

(** [customElements.define(name, ctor)] (HTML, 4.13.4): a SyntaxError for
    an invalid name, a NotSupportedError when the name is already defined
    or the constructor is already the constructor of a definition. *)
Definition customElements_define (reg : Registry) (name : string)
  (ctor : Constructor) : result Registry :=
  if negb (isValidCustomElementName name) then Throw SyntaxError
  else
    match customElements_get reg name with
    | Some _ => Throw NotSupportedError
    | None =>
        if hasConstructor reg ctor then Throw NotSupportedError
        else Ok (reg ++ [(name, ctor)])
    end.

(** [define] of [registerVideoMLComponents]. *)
Definition define (reg : Registry) (name : string) (ctor : Constructor)
  : result Registry :=
  match customElements_get reg name with
  | None => customElements_define reg name ctor
  | Some _ => Ok reg
  end.

(** The statements of [registerVideoMLComponents]. *)
Inductive Registration : Type :=
| Define (name : string) (ctor : Constructor)
| DefineAlias (name : string) (Base : Constructor).

Definition REGISTRATIONS : list Registration :=
  [ Define "title-slide" TitleSlideElement;
    DefineAlias "title-slide-layout-demo" TitleSlideElement;
    DefineAlias "bullet-list-screen" BulletListElement;
    DefineAlias "bullet-list" BulletListElement;
    DefineAlias "two-column-screen" TwoColumnElement;
    DefineAlias "two-column-layout-demo" TwoColumnElement;
    Define "chapter-heading" ChapterHeadingElement;
    Define "content-screen" ContentScreenElement;
    Define "grid-screen" GridScreenElement;
    Define "three-column-screen" ThreeColumnElement;
    Define "video-title" VideoTitleElement;
    Define "video-subtitle" VideoSubtitleElement;
    Define "video-rectangle" VideoRectangleElement;
    Define "video-background" BackgroundElement;
    Define "motion-bars" MotionBarsElement;
    Define "progress-bar" ProgressBarElement;
    Define "quote-card" QuoteCardElement;
    Define "lower-third" LowerThirdElement;
    Define "video-callout" CalloutElement;
    Define "video-chyron" ChyronElement;
    Define "code-block" CodeBlockElement;
    DefineAlias "anime-harness-demo" DemoPlaceholderElement;
    DefineAlias "d3-bar-chart" DemoPlaceholderElement;
    DefineAlias "framer-motion-demo" DemoPlaceholderElement;
    DefineAlias "lottie-badge" DemoPlaceholderElement;
    DefineAlias "mix-and-match-demo" DemoPlaceholderElement;
    DefineAlias "p5-particles" DemoPlaceholderElement;
    DefineAlias "p5-neon-field" DemoPlaceholderElement;
    DefineAlias "text-effects-demo" DemoPlaceholderElement;
    DefineAlias "three-orbit" DemoPlaceholderElement;
    DefineAlias "content-layout-demo" DemoPlaceholderElement;
    DefineAlias "not-video" DemoPlaceholderElement ].

(** Runs the statements in order; a throw ends the function and keeps
    what was defined before it.  [defineAlias] makes its class before it
    calls [define]. *)
Fixpoint runRegistrations (todo : list Registration) (reg : Registry)
  (aliases : nat) : Registry * nat * result unit :=
  match todo with
  | [] => (reg, aliases, Ok tt)
  | Define name ctor :: rest =>
      match define reg name ctor with
      | Ok reg' => runRegistrations rest reg' aliases
      | Throw e => (reg, aliases, Throw e)
      end
  | DefineAlias name Base :: rest =>
      match define reg name (AliasElement aliases Base) with
      | Ok reg' => runRegistrations rest reg' (S aliases)
      | Throw e => (reg, S aliases, Throw e)
      end
  end.

(** [registerVideoMLComponents]. *)
Definition registerVideoMLComponents (w : Window) : Window * result unit :=
  match customElements w with
  | None => (w, Ok tt)
  | Some reg =>
      let '(reg, aliases, outcome) :=
        runRegistrations REGISTRATIONS reg (aliasClasses w) in
      ({| customElements := Some reg; aliasClasses := aliases |}, outcome)
  end.

(** [String.prototype.toUpperCase], on the ASCII letters. *)
Definition toUpperCase (s : string) : string :=
  str (map (fun c => if isLower c then ascii_of_nat (code c - 32) else c)
           (chars s)).

(** [el.tagName] of an element of an HTML document: its name in upper
    case. *)
Definition tagNameOf (node : Node) : string :=
  match node with
  | Element name _ _ _ => toUpperCase name
  | Text _ => ""
  end.

Definition isElement (node : Node) : bool :=
  match node with Element _ _ _ _ => true | Text _ => false end.

(** [root.querySelectorAll("*")]: the element descendants in tree order. *)
Fixpoint descendants (node : Node) : list Node :=
  match node with
  | Text _ => []
  | Element _ _ _ ch =>
      flat_map (fun c => if isElement c then c :: descendants c else []) ch
  end.

(** [set.add(x)] on a Set, which keeps insertion order. *)
Definition setAdd (x : string) (set : list string) : list string :=
  if existsb (String.eqb x) set then set else set ++ [x].

(** The first loop of [registerFallbackComponents]. *)
Definition hyphenatedTags (root : Node) : list string :=
  fold_left (fun tags el =>
      let tag := toLowerCase (tagNameOf el) in
      if negb (includesChar "-" tag) then tags
      else setAdd tag tags)
    (root :: descendants root) [].

(** The second loop of [registerFallbackComponents]. *)
Fixpoint defineFallbacks (tags : list string) (reg : Registry)
  : Registry * result unit :=
  match tags with
  | [] => (reg, Ok tt)
  | tag :: rest =>
      match customElements_get reg tag with
      | Some _ => defineFallbacks rest reg
      | None =>
          match customElements_define reg tag FallbackElement with
          | Ok reg' => defineFallbacks rest reg'
          | Throw e => (reg, Throw e)
          end
      end
  end.

(** [registerFallbackComponents(root)]. *)
Definition registerFallbackComponents (w : Window) (root : Node)
  : Window * result unit :=
  match customElements w with
  | None => (w, Ok tt)
  | Some reg =>
      let tags := hyphenatedTags root in
      let '(reg, outcome) := defineFallbacks tags reg in
      ({| customElements := Some reg; aliasClasses := aliasClasses w |},
       outcome)
  end.

(** ** Notions the statements use *)

(** A value of the JSON data model: no [undefined] and no function, at
    any depth. *)
Fixpoint isJSON (v : JSValue) : bool :=
  match v with
  | JUndefined | JBuiltin _ => false
  | JNull | JBool _ | JNum _ | JStr _ => true
  | JArr elems => forallb isJSON elems
  | JObj fields => forallb (fun kv => isJSON (snd kv)) fields
  end.

(** What holds of the automaton of [JSON.parse] while it reads: the
    values in its frames, the literal it is reading and its result are
    JSON values. *)
Definition frameOK (f : JSON.frame) : Prop :=
  match f with
  | JSON.InArray done => forallb isJSON done = true
  | JSON.InObject done _ => forallb (fun kv => isJSON (snd kv)) done = true
  end.

Definition modeOK (m : JSON.mode) : Prop :=
  match m with
  | JSON.InLit _ v => isJSON v = true
  | _ => True
  end.

Definition stateOK (s : JSON.state) : Prop :=
  Forall frameOK (JSON.stack s)
  /\ modeOK (JSON.current s)
  /\ (forall v, JSON.top s = Some v -> isJSON v = true).

(** A property bag: a key/value object. *)
Definition isBag (v : JSValue) : bool :=
  match v with JObj _ => true | _ => false end.

(** A slot of the theme is resolved from a token: it is not empty; it is
    [hsl(value)] when the trimmed token [value] is not empty and the
    default of the slot when the token is absent. *)
Definition slotResolved (scope : HTMLElement) (token default slot : string)
  : Prop :=
  let value := trim (getPropertyValue scope token) in
  slot <> ""
  /\ (value <> "" -> slot = ("hsl(" ++ value ++ ")")%string)
  /\ (value = "" -> slot = default).

(** The sequence [values] of [MotionBarsElement.render] for a bag. *)
Definition valuesOf (props : JSValue) : list JSValue :=
  match GetOwn props "values" with
  | JArr elems => elems
  | _ => DEFAULT_VALUES
  end.

(** The divisor [max] of [MotionBarsElement.render] for a bag. *)
Definition divisor (props : JSValue) : number :=
  Math_max (map numberOrZero (valuesOf props) ++ [numZ 1]).

(** The base proportion and the height, in percent, of the bar of a raw
    value under a divisor. *)
Definition baseOf (max : number) (raw : JSValue) : number :=
  Num.div (numberOrZero raw) max.

Definition heightOf (base : number) : number :=
  Num.mul (Num.max2 tenth base) (numZ 100).

(** The nodes [this.barNodes] refers to. *)
Definition barsOf (this : HTMLElement) : list (option Node) :=
  map (nodeAt (childNodes this)) (barNodes this).

(** The base proportion a bar stores, as the tick handler reads it. *)
Definition storedBase (bar : option Node) : option number :=
  match bar with
  | Some node => option_map parseFloat (getData node "base")
  | None => None
  end.

(** The height a bar has in its inline style. *)
Definition barHeight (bar : option Node) : option DOMString :=
  match bar with
  | Some node => getStyle node "height"
  | None => None
  end.

(** A finite number a binary64 can hold: below the overflow threshold in
    magnitude. *)
Definition finiteDouble (n : number) : Prop :=
  match n with
  | Fin q => (Qopp Num.OVERFLOW < q < Num.OVERFLOW)%Q
  | _ => False
  end.

(** The columns [values.forEach] appends to the chart, from index [idx]. *)
Fixpoint columns (max : number) (accent : JSValue) (labels : list JSValue)
  (values : list JSValue) (idx : nat) : list Node :=
  match values with
  | [] => []
  | raw :: rest =>
      makeBarColumn max accent labels raw idx
      :: columns max accent labels rest (S idx)
  end.

(** An element of the document with a tag, a parent and a [props]
    attribute, and nothing else. *)
Definition element (tag : string) (parent : option nat)
  (props : option string) : HTMLElement :=
  {| tagName := tag;
     attributes := match props with Some p => [("props", p)] | None => [] end;
     parentNode := parent; customProperties := []; eventListeners := [];
     childNodes := []; barNodes := []; tickHandler := None |}.

(** A document with two presentation roots, 1 and 2, under the root
    element, and a bar chart, 3, not yet inserted. *)
Definition stage : Document :=
  {| documentElement := element "HTML" None None;
     elements := [ (1%nat, element "VML" (Some 0%nat) None);
                   (2%nat, element "VIDEO-ML" (Some 0%nat) None);
                   (3%nat, element "MOTION-BARS" None None) ];
     closures := [] |}.

(** The [detail] of a tick at [time] seconds. *)
Definition tick (time : Z) : JSValue := JObj [("time", JNum (numZ time))].

(** The transform each bar of the instance [id] has in its inline style. *)
Definition barTransforms (doc : Document) (id : nat)
  : list (option DOMString) :=
  match getElement doc id with
  | Some el =>
      map (fun bar => match bar with
                      | Some node => getStyle node "transform"
                      | None => None
                      end) (barsOf el)
  | None => []
  end.

(** The life of the bar chart 3 of [stage]: inserted under the root 1,
    ticked at 0 s, removed, ticked at 1 s; and, after the removal,
    inserted under the root 2. *)
Definition chartAttached : Document := fst (attach stage 1 3).
Definition chartTicked : Document := dispatchTick chartAttached 1 (tick 0).
Definition chartDetached : Document := detach chartTicked 3.
Definition chartTickedLater : Document := dispatchTick chartDetached 1 (tick 1).
Definition chartMoved : Document := fst (attach chartDetached 2 3).
Definition chartMovedTicked : Document := dispatchTick chartMoved 1 (tick 2).

(** A window whose registry is empty. *)
Definition freshWindow : Window :=
  {| customElements := Some []; aliasClasses := 0 |}.

(** A presentation root that holds an unregistered tag with authored
    content, and one that holds two unregistered tags. *)
Definition sceneAuthored : Node :=
  Element "vml" [] [] [Element "x-a" [] [] [Text (lit "hello")]].

Definition sceneTwoTags : Node :=
  Element "vml" [] [] [Element "x-a" [] [] []; Element "x-b" [] [] []].

(** The instance of [x-a] in [sceneAuthored], as an element of the
    document. *)
Definition authored : HTMLElement :=
  setChildNodes (element "X-A" (Some 1%nat) None) [Text (lit "hello")].

(** The style of the label of [FallbackElement]. *)
Definition FALLBACK_STYLE : list (string * DOMString) :=
  css [ ("fontFamily", "system-ui, sans-serif"); ("fontSize", "14px");
        ("opacity", "0.6"); ("padding", "8px") ].

(** The number [ProgressBarElement.render] clamps:
    [Number(props.progress ?? props.percent ?? 50)]. *)
Definition progressOf (props : JSValue) : number :=
  ToNumber (GetOwn props "progress" ?? GetOwn props "percent"
            ?? JNum (numZ 50)).

(** [Math.max(0, Math.min(100, p))]. *)
Definition clampPercent (p : number) : number :=
  Num.max2 (numZ 0) (Num.min2 (numZ 100) p).

(** The entry [BulletListElement.render] makes of one item. *)
Definition bulletEntry (item : JSValue) : Node :=
  setTextContent (createElement "li") (ToString item).

(** The card [GridScreenElement.render] makes of one item. *)
Definition gridCard (doc : Document) (item : JSValue) : Node :=
  let card := makeCard doc 20 in
  let card := appendChild card
    (makeText
       (ToString (GetOpt item "title" ?? GetOpt item "label" ?? JStr "Item"))
       (css [ ("fontSize", "20px"); ("fontWeight", "600");
              ("fontFamily", HEADING_FONT) ])) in
  appendTextIf (ToBoolean (GetOpt item "text")) card (GetOpt item "text")
    (css [ ("fontSize", "16px"); ("opacity", "0.8") ]).

(** A node without the [transform] entries of its inline styles, at any
    depth. *)
Fixpoint eraseTransform (node : Node) : Node :=
  match node with
  | Text data => Text data
  | Element name st ds ch =>
      Element name
        (filter (fun kv => negb (String.eqb (fst kv) "transform")) st)
        ds (map eraseTransform ch)
  end.

(** What the tick handler does to the bar at index [idx]. *)
Definition scaleBar (time : number) (idx : nat) (node : Node) : Node :=
  let base :=
    parseFloat (match getData node "base" with
                | Some b => b
                | None => lit "1"
                end) in
  setStyle node "transform" [Chars "scaleY("; Scale base time idx; Chars ")"].

(** The tag name a statement of [registerVideoMLComponents] registers. *)
Definition registrationName (r : Registration) : string :=
  match r with
  | Define name _ => name
  | DefineAlias name _ => name
  end.

(** How many of the statements are calls of [defineAlias]. *)
Definition aliasCount (todo : list Registration) : nat :=
  List.length (filter (fun r => match r with
                                | DefineAlias _ _ => true
                                | Define _ _ => false
                                end) todo).

(** [stage] with the bar chart 3 placed under the root 1, before any
    reaction has run. *)
Definition placed : Document :=
  putElement stage 3 (element "MOTION-BARS" (Some 1%nat) None).

(** A presentation root whose [--primary] token is padded with white
    space. *)
Definition themedRoot : HTMLElement :=
  {| tagName := "VML"; attributes := []; parentNode := Some 0%nat;
     customProperties := [("--primary", "  210 40% 60% ")];
     eventListeners := []; childNodes := []; barNodes := [];
     tickHandler := None |}.

(** * Properties *)

(** ** The prop decoder *)

Module JSONFacts.
Import JSON.

Lemma assign_isJSON : forall k v l,
  isJSON v = true ->
  forallb (fun kv => isJSON (snd kv)) l = true ->
  forallb (fun kv : string * JSValue => isJSON (snd kv)) (assign k v l) = true.
Proof.
  intros k v l Hv. induction l as [|[k' v'] l IH]; simpl; intros Hl.
  - now rewrite Hv.
  - apply andb_prop in Hl. destruct Hl as [H1 H2].
    destruct (String.eqb k k'); simpl.
    + now rewrite Hv, H2.
    + now rewrite H1, IH.
Qed.

Lemma members_isJSON : forall done,
  forallb (fun kv => isJSON (snd kv)) done = true ->
  forallb (fun kv : string * JSValue => isJSON (snd kv)) (members done) = true.
Proof.
  intros done H. unfold members.
  assert (Hrev : forallb (fun kv : string * JSValue => isJSON (snd kv))
                   (rev done) = true).
  { rewrite forallb_forall in *. intros x Hx. apply H. now apply in_rev. }
  assert (G : forall l acc,
    forallb (fun kv : string * JSValue => isJSON (snd kv)) l = true ->
    forallb (fun kv : string * JSValue => isJSON (snd kv)) acc = true ->
    forallb (fun kv : string * JSValue => isJSON (snd kv))
      (fold_left (fun acc kv => assign (fst kv) (snd kv) acc) l acc) = true).
  { induction l as [|[k v] l IH]; simpl; intros acc Hl Hacc; [exact Hacc|].
    apply andb_prop in Hl. destruct Hl as [H1 H2].
    apply IH; [exact H2|]. now apply assign_isJSON. }
  now apply G.
Qed.

Lemma complete_OK : forall stk v s,
  Forall frameOK stk -> isJSON v = true ->
  complete stk v = Some s -> stateOK s.
Proof.
  intros stk v s Hstk Hv H. unfold complete in H.
  destruct stk as [|[done|done [k|]] below]; inversion H; subst; clear H;
    unfold stateOK; simpl.
  - repeat split; auto. intros v' E. now inversion E; subst.
  - inversion Hstk; subst. repeat split; try discriminate.
    constructor; [simpl in *; now rewrite Hv|assumption].
  - inversion Hstk; subst. repeat split; try discriminate.
    constructor; [simpl in *; now rewrite Hv|assumption].
Qed.

Ltac uncase H :=
  repeat (simpl in H;
          match type of H with
          | Some _ = Some _ => fail 1
          | context [if ?b then _ else _] => destruct b eqn:?
          | context [match ?x with _ => _ end] => destruct x eqn:?
          end);
  try discriminate.

Ltac solveOK :=
  match goal with
  | H : complete _ _ = Some _ |- _ =>
      eapply complete_OK; [ | | exact H]; auto
  | H : Some _ = Some _ |- _ =>
      inversion H; subst; clear H; unfold stateOK; simpl; auto
  end.

Lemma startValue_OK : forall stk c s,
  Forall frameOK stk -> startValue stk c = Some s -> stateOK s.
Proof.
  intros stk c s Hstk H. unfold startValue in H.
  uncase H; solveOK; repeat split; auto; try discriminate;
    constructor; simpl; auto.
Qed.

Lemma completeString_OK : forall stk iskey str0 s,
  Forall frameOK stk -> completeString stk iskey str0 = Some s -> stateOK s.
Proof.
  intros stk iskey str0 s Hstk H. unfold completeString in H.
  destruct iskey.
  - uncase H. inversion H; subst; clear H. inversion Hstk; subst.
    unfold stateOK; simpl. repeat split; auto; try discriminate.
  - eapply complete_OK; [ | | exact H]; auto.
Qed.

Lemma stepPlain_OK : forall s c s',
  stateOK s -> stepPlain s c = Some s' -> stateOK s'.
Proof.
  intros [stk m t] c s' (Hstk & Hm & Ht) H. simpl in *.
  unfold stepPlain in H; simpl in H.
  destruct m; simpl in H.
  - destruct (isWhiteSpace c).
    + inversion H; subst. repeat split; auto.
    + eapply startValue_OK; eauto.
  - destruct (isWhiteSpace c); [inversion H; subst; repeat split; auto|].
    destruct (Ascii.eqb c "]").
    + destruct stk as [|[d|d k] below]; try discriminate.
      inversion Hstk; subst. eapply complete_OK; [ | | exact H]; auto.
    + eapply startValue_OK; eauto.
  - destruct (isWhiteSpace c); [inversion H; subst; repeat split; auto|].
    destruct (Ascii.eqb c "}").
    + destruct stk as [|[d|d k] below]; try discriminate.
      inversion Hstk; subst. eapply complete_OK; [ | | exact H]; auto.
    + destruct (Ascii.eqb c DQUOTE); [|discriminate].
      inversion H; subst. repeat split; simpl; auto.
  - destruct (isWhiteSpace c); [inversion H; subst; repeat split; auto|].
    destruct (Ascii.eqb c DQUOTE); [|discriminate].
    inversion H; subst. repeat split; simpl; auto.
  - destruct (isWhiteSpace c); [inversion H; subst; repeat split; auto|].
    destruct (Ascii.eqb c ":"); [|discriminate].
    inversion H; subst. repeat split; simpl; auto.
  - destruct (isWhiteSpace c); [inversion H; subst; repeat split; auto|].
    destruct stk as [|[d|d [k|]] below]; try discriminate.
    + destruct (Ascii.eqb c ",").
      * inversion H; subst. repeat split; simpl; auto.
      * destruct (Ascii.eqb c "]"); [|discriminate].
        inversion Hstk; subst. eapply complete_OK; [ | | exact H]; auto.
        simpl in *. rewrite forallb_forall in *. intros x Hx. apply H2.
        now apply in_rev.
    + destruct (Ascii.eqb c ",").
      * inversion H; subst. repeat split; simpl; auto.
      * destruct (Ascii.eqb c "}"); [|discriminate].
        inversion Hstk; subst. eapply complete_OK; [ | | exact H]; auto.
        simpl. now apply members_isJSON.
  - destruct st.
    + destruct (Ascii.eqb c DQUOTE).
      * eapply completeString_OK; eauto.
      * uncase H; inversion H; subst; repeat split; simpl; auto.
    + uncase H; inversion H; subst; repeat split; simpl; auto.
    + uncase H; inversion H; subst; repeat split; simpl; auto.
  - discriminate.
  - destruct rest as [|e [|e' rest]]; try discriminate.
    + destruct (Ascii.eqb c e); [|discriminate].
      eapply complete_OK; [ | | exact H]; auto.
    + destruct (Ascii.eqb c e); [|discriminate].
      inversion H; subst. repeat split; simpl; auto.
Qed.

Lemma step_OK : forall s c s',
  stateOK s -> step s c = Some s' -> stateOK s'.
Proof.
  intros s c s' Hs H. unfold step in H.
  destruct (current s) eqn:Hc; try (eapply stepPlain_OK; eassumption).
  destruct (numStep st acc c) as [[st' a']|].
  - inversion H; subst. destruct Hs as (H1 & H2 & H3).
    repeat split; simpl; auto.
  - destruct (numAccepting st); [|discriminate].
    destruct (complete (stack s) (JNum (numValue acc))) as [s1|] eqn:E;
      [|discriminate].
    eapply stepPlain_OK; [|exact H].
    eapply complete_OK; [ | | exact E]; [apply Hs|reflexivity].
Qed.

Lemma run_OK : forall l s s',
  stateOK s -> run s l = Some s' -> stateOK s'.
Proof.
  induction l as [|c l IH]; simpl; intros s s' Hs H.
  - now inversion H; subst.
  - destruct (step s c) as [s1|] eqn:E; [|discriminate].
    eapply IH; [|exact H]. eapply step_OK; eauto.
Qed.

Lemma parse_isJSON : forall text v,
  parse text = Some v -> isJSON v = true.
Proof.
  intros text v H. unfold parse in H.
  destruct (run initial (chars text)) as [s|] eqn:E; [|discriminate].
  assert (Hs : stateOK s).
  { eapply run_OK; [|exact E]. repeat split; simpl; auto; discriminate. }
  unfold finish in H.
  assert (G : forall s1, stateOK s1 ->
    match s1 with
    | {| stack := []; current := After; top := Some v0 |} => Some v0
    | _ => None
    end = Some v -> isJSON v = true).
  { intros [stk1 m1 [t1|]] (_ & _ & Ht); destruct stk1; destruct m1;
      try discriminate.
    intros Q; inversion Q; subst. now apply Ht. }
  destruct (current s) eqn:Hc; try (now apply (G s)).
  destruct (numAccepting st); [|discriminate].
  destruct (complete (stack s) (JNum (numValue acc))) as [s1|] eqn:E1;
    [|discriminate].
  apply (G s1); [|exact H].
  eapply complete_OK; [ | | exact E1]; [apply Hs|reflexivity].
Qed.

End JSONFacts.

(** C4.  When the serialized prop string is absent, empty or does not
    parse, [parseProps] returns the empty bag; being a total function it
    raises nothing. *)
Theorem parseProps_fail_soft : forall value : option string,
  value = None
  \/ value = Some ""
  \/ (exists text, value = Some text /\ JSON.parse text = None) ->
  parseProps value = JObj [].
Proof.
  intros value [H | [H | (text & H & Hparse)]]; subst; try reflexivity.
  unfold parseProps. destruct (isEmptyString text); [reflexivity|].
  now rewrite Hparse.
Qed.

(** The text "{bad" does not parse and decodes to the empty bag. *)
Lemma parseProps_fail_soft_witness :
  JSON.parse "{bad" = None /\ parseProps (Some "{bad") = JObj [].
Proof.
  split; [reflexivity|].
  apply (parseProps_fail_soft (Some "{bad")).
  right; right. exists "{bad". split; reflexivity.
Defined.



(** ** The theme resolver *)

Lemma format_resolved : forall scope token default,
  default <> "" ->
  slotResolved scope token default
    (match readCssVar scope token with
     | Some v => if isEmptyString v then default else ("hsl(" ++ v ++ ")")%string
     | None => default
     end).
Proof.
  intros scope token default Hdefault. unfold slotResolved, readCssVar.
  destruct (trim (getPropertyValue scope token)) as [|c rest]; simpl.
  - repeat split; auto. intros H; now elim H.
  - repeat split; auto; discriminate.
Qed.

(** C5.  For every scope, [resolveTheme] returns a theme (it is total) in
    which each of the six slots is populated: the slot is [hsl(value)]
    when the trimmed token [value] is not empty and the brand default of
    the slot when the token is absent; the six defaults are pairwise
    distinct. *)
Theorem resolveTheme_populated :
  forall (doc : Document) (root : option HTMLElement),
  let scope := scopeOf doc root in
  let theme := resolveTheme doc root in
  slotResolved scope "--background" BRAND_COLORS.notBlack (background theme)
  /\ slotResolved scope "--card" "#111827" (surface theme)
  /\ slotResolved scope "--foreground" BRAND_COLORS.notWhite (text theme)
  /\ slotResolved scope "--muted-foreground" BRAND_COLORS.muted (muted theme)
  /\ slotResolved scope "--primary" BRAND_COLORS.accent (accent theme)
  /\ slotResolved scope "--recess" "#0b1220" (recess theme)
  /\ NoDup [ BRAND_COLORS.notBlack; "#111827"; BRAND_COLORS.notWhite;
             BRAND_COLORS.muted; BRAND_COLORS.accent; "#0b1220" ].
Proof.
  intros doc root scope theme. subst theme. unfold resolveTheme.
  fold scope. cbv zeta. simpl.
  repeat split; try (apply format_resolved; discriminate).
  repeat constructor; simpl; intuition discriminate.
Qed.

(** ** Re-rendering *)

Lemma removeChildren_nil : forall l, removeChildren l = [].
Proof. induction l; simpl; auto. Qed.

Lemma clear_spec : forall el, clear el = setChildNodes el [].
Proof. intros el. unfold clear. now rewrite removeChildren_nil. Qed.

Lemma closest_ext : forall doc a b,
  tagName a = tagName b -> parentNode a = parentNode b ->
  option_map (fun r => customProperties (snd r)) (closest doc a)
  = option_map (fun r => customProperties (snd r)) (closest doc b)
  \/ (isPresentationRoot a = true /\ isPresentationRoot b = true
      /\ closest doc a = Some (None, a) /\ closest doc b = Some (None, b)).
Proof.
  intros doc a b Ht Hp. unfold closest. simpl.
  unfold isPresentationRoot. rewrite Ht.
  destruct (String.eqb (toLowerCase (tagName b)) "vml"
            || String.eqb (toLowerCase (tagName b)) "videoml"
            || String.eqb (toLowerCase (tagName b)) "video-ml")%bool.
  - right. auto.
  - left. now rewrite Hp.
Qed.

Lemma getRootTheme_ext : forall doc a b,
  tagName a = tagName b -> parentNode a = parentNode b ->
  customProperties a = customProperties b ->
  getRootTheme doc a = getRootTheme doc b.
Proof.
  intros doc a b Ht Hp Hc. unfold getRootTheme.
  assert (E : forall x y : option (option nat * HTMLElement),
    option_map (fun r => customProperties (snd r)) x
    = option_map (fun r => customProperties (snd r)) y ->
    resolveTheme doc (option_map snd x) = resolveTheme doc (option_map snd y)).
  { intros [[i x]|] [[j y]|]; simpl; intros E; try discriminate; auto.
    inversion E as [E']. unfold resolveTheme, scopeOf, readCssVar,
      getPropertyValue. now rewrite E'. }
  destruct (closest_ext doc a b Ht Hp) as [H | (_ & _ & Ha & Hb)].
  - now apply E.
  - apply E. rewrite Ha, Hb. simpl. now rewrite Hc.
Qed.

Ltac rerender :=
  cbv zeta; rewrite !clear_spec;
  match goal with
  | |- _ = commit _ ?b =>
      let built := fresh "built" in
      let Hbuilt := fresh "Hbuilt" in
      remember b as built eqn:Hbuilt;
      destruct built as [built|built]; cbn [commit fst];
      match goal with
      | |- commit _ ?b' = _ =>
          (replace b' with (@Ok Node built)
             by (rewrite Hbuilt; reflexivity))
          || (replace b' with (@Throw Node built)
                by (rewrite Hbuilt; reflexivity))
      end;
      reflexivity
  end.

Lemma TitleSlide_rerender : forall doc this,
  TitleSlideElement_render doc (fst (TitleSlideElement_render doc this))
  = TitleSlideElement_render doc this.
Proof. intros; unfold TitleSlideElement_render; rerender. Qed.

Lemma BulletList_rerender : forall doc this,
  BulletListElement_render doc (fst (BulletListElement_render doc this))
  = BulletListElement_render doc this.
Proof. intros; unfold BulletListElement_render; rerender. Qed.

Lemma MotionBars_rerender : forall doc this,
  MotionBarsElement_render doc (fst (MotionBarsElement_render doc this))
  = MotionBarsElement_render doc this.
Proof.
  intros doc this. unfold MotionBarsElement_render. cbv zeta.
  rewrite !clear_spec.
  match goal with
  | |- _ = match ?b with _ => _ end => remember b as built eqn:Hbuilt
  end.
  destruct built as [[wrap bars]|e]; cbn [fst].
  - rewrite (getRootTheme_ext doc
      (setChildNodes
         (hostAppendChild (setBarNodes (setChildNodes this []) bars) wrap) [])
      (setChildNodes this [])) by reflexivity.
    match goal with
    | |- match ?b' with _ => _ end = _ =>
        replace b' with (@Ok (Node * list Path) (wrap, bars))
          by (etransitivity; [exact Hbuilt|reflexivity])
    end.
    reflexivity.
  - match goal with
    | |- match ?b' with _ => _ end = _ =>
        replace b' with (@Throw (Node * list Path) e)
          by (etransitivity; [exact Hbuilt|reflexivity])
    end.
    reflexivity.
Qed.

Lemma TwoColumn_rerender : forall doc this,
  TwoColumnElement_render doc (fst (TwoColumnElement_render doc this))
  = TwoColumnElement_render doc this.
Proof. intros; unfold TwoColumnElement_render; rerender. Qed.

Lemma ChapterHeading_rerender : forall doc this,
  ChapterHeadingElement_render doc (fst (ChapterHeadingElement_render doc this))
  = ChapterHeadingElement_render doc this.
Proof. intros; unfold ChapterHeadingElement_render; rerender. Qed.

Lemma VideoTitle_rerender : forall doc this,
  VideoTitleElement_render doc (fst (VideoTitleElement_render doc this))
  = VideoTitleElement_render doc this.
Proof. intros; unfold VideoTitleElement_render; rerender. Qed.

Lemma VideoSubtitle_rerender : forall doc this,
  VideoSubtitleElement_render doc (fst (VideoSubtitleElement_render doc this))
  = VideoSubtitleElement_render doc this.
Proof. intros; unfold VideoSubtitleElement_render; rerender. Qed.

Lemma VideoRectangle_rerender : forall doc this,
  VideoRectangleElement_render doc (fst (VideoRectangleElement_render doc this))
  = VideoRectangleElement_render doc this.
Proof. intros; unfold VideoRectangleElement_render; rerender. Qed.

Lemma Background_rerender : forall doc this,
  BackgroundElement_render doc (fst (BackgroundElement_render doc this))
  = BackgroundElement_render doc this.
Proof. intros; unfold BackgroundElement_render; rerender. Qed.

Lemma ProgressBar_rerender : forall doc this,
  ProgressBarElement_render doc (fst (ProgressBarElement_render doc this))
  = ProgressBarElement_render doc this.
Proof. intros; unfold ProgressBarElement_render; rerender. Qed.

Lemma QuoteCard_rerender : forall doc this,
  QuoteCardElement_render doc (fst (QuoteCardElement_render doc this))
  = QuoteCardElement_render doc this.
Proof. intros; unfold QuoteCardElement_render; rerender. Qed.

Lemma LowerThird_rerender : forall doc this,
  LowerThirdElement_render doc (fst (LowerThirdElement_render doc this))
  = LowerThirdElement_render doc this.
Proof. intros; unfold LowerThirdElement_render; rerender. Qed.

Lemma Callout_rerender : forall doc this,
  CalloutElement_render doc (fst (CalloutElement_render doc this))
  = CalloutElement_render doc this.
Proof. intros; unfold CalloutElement_render; rerender. Qed.

Lemma Chyron_rerender : forall doc this,
  ChyronElement_render doc (fst (ChyronElement_render doc this))
  = ChyronElement_render doc this.
Proof. intros; unfold ChyronElement_render; rerender. Qed.

Lemma CodeBlock_rerender : forall doc this,
  CodeBlockElement_render doc (fst (CodeBlockElement_render doc this))
  = CodeBlockElement_render doc this.
Proof. intros; unfold CodeBlockElement_render; rerender. Qed.

Lemma ContentScreen_rerender : forall doc this,
  ContentScreenElement_render doc (fst (ContentScreenElement_render doc this))
  = ContentScreenElement_render doc this.
Proof. intros; unfold ContentScreenElement_render; rerender. Qed.

Lemma GridScreen_rerender : forall doc this,
  GridScreenElement_render doc (fst (GridScreenElement_render doc this))
  = GridScreenElement_render doc this.
Proof. intros; unfold GridScreenElement_render; rerender. Qed.

Lemma ThreeColumn_rerender : forall doc this,
  ThreeColumnElement_render doc (fst (ThreeColumnElement_render doc this))
  = ThreeColumnElement_render doc this.
Proof. intros; unfold ThreeColumnElement_render; rerender. Qed.

Lemma commit_children : forall this built,
  (List.length (childNodes (fst (commit (clear this) built))) <= 1)%nat.
Proof.
  intros this built. rewrite clear_spec.
  destruct built; simpl; auto.
Qed.

Lemma render_children : forall c doc this,
  (List.length (childNodes (fst (render c doc this))) <= 1)%nat.
Proof.
  intros c doc this.
  destruct c; simpl;
    try (match goal with
         | |- context [?f doc this] => unfold f
         end; cbv zeta; apply commit_children).
  unfold MotionBarsElement_render. cbv zeta. rewrite !clear_spec.
  match goal with
  | |- context [match ?b with _ => _ end] => destruct b as [[wrap bars]|e]
  end; simpl; auto.
Qed.

(** C6.  For every component, document and element, rendering a second
    time right after a first render leaves the element exactly as the
    first render left it, with the same outcome: the subtree has the same
    structure, text and styles, and the element never holds more than the
    one child the render appended. *)
Theorem render_idempotent :
  forall (c : Component) (doc : Document) (this : HTMLElement),
  render c doc (fst (render c doc this)) = render c doc this
  /\ (List.length (childNodes (fst (render c doc this))) <= 1)%nat.
Proof.
  intros c doc this. split; [|apply render_children].
  destruct c; simpl;
    [ apply TitleSlide_rerender | apply BulletList_rerender
    | apply MotionBars_rerender | apply TwoColumn_rerender
    | apply ChapterHeading_rerender | apply VideoTitle_rerender
    | apply VideoSubtitle_rerender | apply VideoRectangle_rerender
    | apply Background_rerender | apply ProgressBar_rerender
    | apply QuoteCard_rerender | apply LowerThird_rerender
    | apply Callout_rerender | apply Chyron_rerender
    | apply CodeBlock_rerender | apply ContentScreen_rerender
    | apply GridScreen_rerender | apply ThreeColumn_rerender ].
Qed.

(** ** The render step and unexpected payloads *)

Lemma Get_defined : forall v key,
  nullish v = false -> Get v key = Ok (GetOwn v key).
Proof. intros v key H. unfold Get. now rewrite H. Qed.

Lemma Get_null : forall key, Get JNull key = Throw TypeError.
Proof. reflexivity. Qed.

(** Every render step reads a property of the bag before it appends
    anything, so the payload [null] makes each of them throw. *)
Lemma render_null_payload_throws : forall c doc this,
  getAttribute this "props" = Some "null" ->
  render c doc this = (clear this, Throw TypeError).
Proof.
  intros c doc this H.
  destruct c; simpl;
    match goal with
    | |- ?f doc this = _ => unfold f
    end; cbv zeta; rewrite H;
    change (parseProps (Some "null")) with JNull;
    rewrite ?Get_null; reflexivity.
Qed.

(** C2, where the code departs from it.  The grid screen reads [items]
    without checking that it is a sequence and throws a TypeError on
    [{"items": 5}]; every component throws on the payload [null], here
    the title screen.  The element is left cleared, with no child.  The
    bar chart checks [values] with [Array.isArray] and renders
    [{"values": 5}] with its default values. *)
Theorem render_throws_on_unexpected_payload :
  render GridScreen stage
    (element "GRID-SCREEN" (Some 1%nat) (Some (json "{'items': 5}")))
  = (element "GRID-SCREEN" (Some 1%nat) (Some (json "{'items': 5}")),
     Throw TypeError)
  /\ render TitleSlide stage (element "TITLE-SLIDE" (Some 1%nat) (Some "null"))
     = (element "TITLE-SLIDE" (Some 1%nat) (Some "null"), Throw TypeError)
  /\ snd (render MotionBars stage
            (element "MOTION-BARS" (Some 1%nat) (Some (json "{'values': 5}"))))
     = Ok tt.
Proof. repeat split; vm_compute; reflexivity. Qed.

(** ** The bars of the chart *)

Lemma appendChild_withChildren : forall parent child,
  appendChild parent child = withChildren (fun ch => ch ++ [child]) parent.
Proof. intros [d|n st ds ch] child; reflexivity. Qed.

Lemma appendTextIf_children : forall cond w v style,
  exists extra,
    appendTextIf cond w v style = withChildren (fun ch => ch ++ extra) w.
Proof.
  intros cond w v style. unfold appendTextIf. destruct cond.
  - eexists. apply appendChild_withChildren.
  - exists []. destruct w; simpl; auto. now rewrite app_nil_r.
Qed.

Lemma withChildren_app : forall w a b,
  withChildren (fun ch => ch ++ b) (withChildren (fun ch => ch ++ a) w)
  = withChildren (fun ch => ch ++ (a ++ b)) w.
Proof. intros [d|n st ds ch] a b; simpl; auto. now rewrite app_assoc. Qed.

Lemma appendHeader_children : forall props w,
  nullish props = false ->
  exists extra,
    appendHeader props w = Ok (withChildren (fun ch => ch ++ extra) w).
Proof.
  intros props w H. unfold appendHeader.
  rewrite !Get_defined by exact H. cbn [bind].
  destruct (appendTextIf_children (ToBoolean (GetOwn props "eyebrow")) w
              (GetOwn props "eyebrow") EYEBROW_STYLE) as [e1 E1].
  rewrite E1.
  destruct (appendTextIf_children (ToBoolean (GetOwn props "title"))
              (withChildren (fun ch => ch ++ e1) w)
              (GetOwn props "title") TITLE_STYLE) as [e2 E2].
  rewrite E2, withChildren_app.
  destruct (appendTextIf_children (ToBoolean (GetOwn props "subtitle"))
              (withChildren (fun ch => ch ++ (e1 ++ e2)) w)
              (GetOwn props "subtitle") SUBTITLE_STYLE) as [e3 E3].
  rewrite E3, withChildren_app. eauto.
Qed.

Lemma appendBars_columns : forall values max accent labels idx n st ds ch,
  appendBars max accent labels values idx (Element n st ds ch)
  = Element n st ds (ch ++ columns max accent labels values idx).
Proof.
  induction values as [|raw rest IH]; intros; simpl.
  - now rewrite app_nil_r.
  - rewrite IH. now rewrite <- app_assoc.
Qed.

Lemma column_first_child : forall max accent labels raw idx,
  nth_error (childrenOf (makeBarColumn max accent labels raw idx)) 0
  = Some (makeBar (baseOf max raw) accent).
Proof.
  intros. unfold makeBarColumn. cbv zeta.
  match goal with
  | |- context [if ?c then _ else _] => destruct c
  end; reflexivity.
Qed.

Lemma nth_error_middle : forall (A : Type) (pre : list A) x post,
  nth_error (pre ++ x :: post) (List.length pre) = Some x.
Proof. induction pre; simpl; auto. Qed.

Lemma nodeAt_columns : forall values max accent labels idx pre,
  List.length pre = idx ->
  map (fun i => nodeAt (pre ++ columns max accent labels values idx)
                  [i; 0%nat])
      (seq idx (List.length values))
  = map (fun raw => Some (makeBar (baseOf max raw) accent)) values.
Proof.
  induction values as [|raw rest IH]; intros max accent labels idx pre Hpre;
    simpl; [reflexivity|].
  f_equal.
  - rewrite <- Hpre, nth_error_middle. apply column_first_child.
  - specialize (IH max accent labels (S idx)
                  (pre ++ [makeBarColumn max accent labels raw idx])).
    rewrite <- app_assoc in IH. simpl in IH. apply IH.
    rewrite length_app. simpl. lia.
Qed.

(** After a render that completes, [this.barNodes] refers to one bar per
    value, in order, each built from the value's base proportion. *)
Lemma MotionBars_bars : forall doc this,
  let props := parseProps (getAttribute this "props") in
  nullish props = false ->
  exists accent,
    snd (MotionBarsElement_render doc this) = Ok tt
    /\ barsOf (fst (MotionBarsElement_render doc this))
       = map (fun raw => Some (makeBar (baseOf (divisor props) raw) accent))
             (valuesOf props).
Proof.
  intros doc this props H.
  unfold MotionBarsElement_render. cbv zeta. fold props.
  rewrite clear_spec.
  rewrite !Get_defined by exact H. cbn [bind].
  match goal with
  | |- context [appendHeader props ?w] =>
      destruct (appendHeader_children props w H) as [hdr Hhdr];
      rewrite Hhdr
  end.
  cbn [bind].
  exists (GetOwn props "accent"
          ?? JStr (accent (getRootTheme doc (setChildNodes this [])))).
  split; [reflexivity|].
  fold (valuesOf props). fold (divisor props).
  cbn [fst]. unfold barsOf.
  cbn [childNodes barNodes hostAppendChild setBarNodes setChildNodes].
  rewrite map_map.
  cbn [assignStyle createElement withChildren childrenOf List.length app].
  rewrite appendBars_columns.
  cbn [nodeAt nth_error appendChild childrenOf].
  rewrite (nth_error_middle _ hdr _ []).
  cbn [childrenOf app].
  apply (nodeAt_columns (valuesOf props) _ _ _ 0%nat []). reflexivity.
Qed.

Lemma storedBase_makeBar : forall base accent,
  storedBase (Some (makeBar base accent)) = Some base.
Proof. reflexivity. Qed.

Lemma barHeight_makeBar : forall base accent,
  barHeight (Some (makeBar base accent))
  = Some [Digits (heightOf base); Chars "%"].
Proof. reflexivity. Qed.



(** *** Payloads the render step accepts *)

Ltac straight H :=
  cbv zeta; rewrite ?Get_defined by exact H; cbn [bind];
  repeat match goal with
         | |- context [appendHeader ?p ?w] =>
             let extra := fresh "extra" in
             let E := fresh "E" in
             destruct (appendHeader_children p w H) as [extra E];
             rewrite E; cbn [bind]
         end.


(** *** The divisor *)

Lemma numberOrZero_not_NaN : forall raw, numberOrZero raw <> NaN.
Proof.
  intros raw. unfold numberOrZero.
  destruct (ToNumber raw); simpl; try discriminate.
  destruct (negb (Num.isZero q)); discriminate.
Qed.

Lemma Qle_bool_false : forall x y, Qle_bool x y = false -> (y < x)%Q.
Proof.
  intros x y H. apply Qnot_le_lt. intros L.
  apply Qle_bool_iff in L. congruence.
Qed.

Lemma max2_not_NaN : forall a b, a <> NaN -> b <> NaN -> Num.max2 a b <> NaN.
Proof.
  intros a b Ha Hb. unfold Num.max2.
  destruct a, b; try congruence; simpl; try discriminate.
  destruct (negb (Qle_bool q0 q)); discriminate.
Qed.

Lemma leb_max2_r : forall a b,
  a <> NaN -> b <> NaN -> Num.leb b (Num.max2 a b) = true.
Proof.
  intros a b Ha Hb. unfold Num.max2.
  destruct a, b; try congruence; simpl; auto.
  - apply Qle_bool_iff, Qle_refl.
  - destruct (Qle_bool q0 q) eqn:E; simpl; [exact E|].
    apply Qle_bool_iff, Qle_refl.
Qed.

Lemma leb_max2_l : forall a b,
  a <> NaN -> b <> NaN -> Num.leb a (Num.max2 a b) = true.
Proof.
  intros a b Ha Hb. unfold Num.max2.
  destruct a, b; try congruence; simpl; auto.
  - apply Qle_bool_iff, Qle_refl.
  - destruct (Qle_bool q0 q) eqn:E; simpl.
    + apply Qle_bool_iff, Qle_refl.
    + apply Qle_bool_iff, Qlt_le_weak. now apply Qle_bool_false.
Qed.

Lemma leb_trans : forall a b c,
  Num.leb a b = true -> Num.leb b c = true -> Num.leb a c = true.
Proof.
  intros a b c. destruct a, b, c; simpl; auto; try discriminate.
  intros H1 H2. apply Qle_bool_iff in H1, H2. apply Qle_bool_iff.
  eapply Qle_trans; eauto.
Qed.

Lemma fold_max2 : forall l acc,
  acc <> NaN -> Forall (fun x => x <> NaN) l ->
  fold_left Num.max2 l acc <> NaN
  /\ Num.leb acc (fold_left Num.max2 l acc) = true
  /\ Forall (fun x => Num.leb x (fold_left Num.max2 l acc) = true) l.
Proof.
  induction l as [|x l IH]; intros acc Hacc Hl; simpl.
  - repeat split; auto. destruct acc; simpl; auto; try congruence.
    apply Qle_bool_iff, Qle_refl.
  - inversion Hl as [|? ? Hx Hrest]; subst.
    destruct (IH (Num.max2 acc x)) as (H1 & H2 & H3); auto.
    { now apply max2_not_NaN. }
    repeat split; auto.
    + eapply leb_trans; [|exact H2]. now apply leb_max2_l.
    + constructor; auto.
      eapply leb_trans; [|exact H2]. now apply leb_max2_r.
Qed.

Lemma one_value : numZ 1 = Fin 1.
Proof. reflexivity. Qed.

Lemma hundred_value : numZ 100 = Fin 100.
Proof. reflexivity. Qed.

(** The divisor is not NaN, is at least 1 and at least every coerced
    value. *)
Lemma divisor_bounds : forall props,
  divisor props <> NaN
  /\ Num.leb (numZ 1) (divisor props) = true
  /\ Forall (fun raw => Num.leb (numberOrZero raw) (divisor props) = true)
            (valuesOf props).
Proof.
  intros props. unfold divisor, Math_max.
  assert (Hl : Forall (fun x => x <> NaN)
                 (map numberOrZero (valuesOf props) ++ [numZ 1])).
  { apply Forall_app. split.
    - apply Forall_forall. intros x Hx. apply in_map_iff in Hx.
      destruct Hx as (raw & <- & _). apply numberOrZero_not_NaN.
    - constructor; [|constructor]. rewrite one_value. discriminate. }
  destruct (fold_max2 _ NegInf ltac:(discriminate) Hl) as (H1 & _ & H3).
  apply Forall_app in H3. destruct H3 as [H3 H4].
  repeat split; auto.
  - now inversion H4.
  - rewrite Forall_map in H3. exact H3.
Qed.

Lemma OVERFLOW_large : (100 < Num.OVERFLOW)%Q.
Proof. unfold Qlt. vm_compute. reflexivity. Qed.

Lemma ofQ_in_range : forall q,
  (Qopp Num.OVERFLOW < q < Num.OVERFLOW)%Q -> Num.ofQ q = Fin (Qred q).
Proof.
  intros q [Hlo Hhi]. unfold Num.ofQ. cbv zeta.
  destruct (Qle_bool Num.OVERFLOW (Qred q)) eqn:E1.
  { apply Qle_bool_iff in E1. rewrite Qred_correct in E1.
    exfalso. apply (Qlt_not_le _ _ Hhi E1). }
  destruct (Qle_bool (Qred q) (Qopp Num.OVERFLOW)) eqn:E2.
  { apply Qle_bool_iff in E2. rewrite Qred_correct in E2.
    exfalso. apply (Qlt_not_le _ _ Hlo E2). }
  reflexivity.
Qed.

Lemma max2_choice : forall a b, Num.max2 a b = a \/ Num.max2 a b = b.
Proof.
  intros a b. unfold Num.max2.
  destruct a, b; auto; destruct (Num.ltb _ _); auto.
Qed.

Lemma fold_max2_choice : forall l acc,
  In (fold_left Num.max2 l acc) (acc :: l).
Proof.
  induction l as [|x l IH]; intros acc; simpl; auto.
  destruct (IH (Num.max2 acc x)) as [H|H].
  - destruct (max2_choice acc x) as [E|E].
    + left. rewrite <- H. now symmetry.
    + right; left. rewrite <- H. now symmetry.
  - right; right; exact H.
Qed.

(** The quotient of a finite value by a finite divisor that is at least 1
    and at least the value: finite, and at most 1. *)
Lemma quotient_bounds : forall q p,
  (Qopp Num.OVERFLOW < q < Num.OVERFLOW)%Q -> (1 <= p)%Q -> (q <= p)%Q ->
  Num.div (Fin q) (Fin p) = Fin (Qred (q / p))
  /\ (Qopp Num.OVERFLOW < q / p < Num.OVERFLOW)%Q
  /\ (q / p <= 1)%Q.
Proof.
  intros q p Hq Hp Hqp.
  assert (Hbounds : (Qopp Num.OVERFLOW < q / p < Num.OVERFLOW)%Q
                    /\ (q / p <= 1)%Q).
  { pose proof OVERFLOW_large as Hov.
    assert (Hne : ~ (p == 0)%Q) by (intros E; rewrite E in Hp; lra).
    pose proof (Qmult_div_r q p Hne) as Hd.
    remember Num.OVERFLOW as OV. remember (q / p)%Q as d.
    clear HeqOV Heqd Hne.
    repeat split; nra. }
  split; [|exact Hbounds].
  unfold Num.div, Num.isZero.
  destruct (Qeq_bool p 0) eqn:E.
  { apply Qeq_bool_iff in E. rewrite E in Hp. lra. }
  apply ofQ_in_range. apply Hbounds.
Qed.

(** The height of a bar whose base proportion is finite and at most 1:
    finite and between 10 and 100 percent. *)
Lemma height_bounds : forall b,
  (Qopp Num.OVERFLOW < b)%Q -> (b <= 1)%Q ->
  exists h, heightOf (Fin b) = Fin h /\ (10 <= h <= 100)%Q.
Proof.
  intros b Hlo Hhi. pose proof OVERFLOW_large as Hov.
  unfold heightOf, tenth. rewrite hundred_value.
  assert (Hx : exists x, Num.max2 (Fin (1 # 10)) (Fin b) = Fin x
                         /\ (1 # 10 <= x <= 1)%Q).
  { unfold Num.max2, Num.ltb.
    destruct (Qle_bool b (1 # 10)) eqn:E; simpl.
    - exists (1 # 10)%Q. split; auto. lra.
    - exists b. split; auto. apply Qle_bool_false in E. lra. }
  destruct Hx as (x & -> & Hx).
  unfold Num.mul. rewrite ofQ_in_range.
  - eexists; split; [reflexivity|]. rewrite Qred_correct. lra.
  - remember Num.OVERFLOW as OV. clear HeqOV. lra.
Qed.




(** ** The timeline binding *)

Lemma find_store_same : forall (A : Type) id (v : A) l,
  find id (store id v l) = Some v.
Proof.
  intros A id v l. induction l as [|[k x] l IH]; simpl.
  - now rewrite Nat.eqb_refl.
  - destruct (Nat.eqb id k) eqn:E; simpl.
    + now rewrite Nat.eqb_refl.
    + now rewrite E.
Qed.

Lemma getElement_putElement : forall doc id el,
  getElement (putElement doc id el) id = Some el.
Proof.
  intros doc id el. unfold getElement, putElement.
  destruct (Nat.eqb id 0) eqn:E; simpl; rewrite ?E; auto.
  apply find_store_same.
Qed.

(** The disconnected reaction runs when the element has left its parent:
    unless the bar chart is itself a presentation root, [closest] finds
    nothing and the reaction removes no listener. *)
Lemma disconnected_after_removal : forall doc id this,
  getElement doc id = Some this ->
  parentNode this = None ->
  isPresentationRoot this = false ->
  MotionBarsElement_disconnectedCallback doc id = doc.
Proof.
  intros doc id this Hget Hparent Hroot.
  unfold MotionBarsElement_disconnectedCallback. rewrite Hget.
  unfold closestId, closest. simpl. now rewrite Hroot, Hparent.
Qed.

(** Removing a bar chart from its parent changes nothing in the document
    but its parent link: every listener stays where it was. *)
Lemma detach_removes_no_listener : forall doc id this,
  getElement doc id = Some this ->
  isPresentationRoot this = false ->
  detach doc id = putElement doc id (setParentNode this None).
Proof.
  intros doc id this Hget Hroot. unfold detach, modify. rewrite Hget.
  destruct (isConnected doc id); [|reflexivity].
  apply disconnected_after_removal with (this := setParentNode this None).
  - apply getElement_putElement.
  - reflexivity.
  - exact Hroot.
Qed.

(** Without a presentation root above the bar chart, [bindTimeline]
    registers nothing and stores no handler. *)
Lemma bindTimeline_without_root : forall doc id this,
  getElement doc id = Some this ->
  closest doc this = None ->
  MotionBarsElement_bindTimeline doc id = doc.
Proof.
  intros doc id this Hget Hclosest. unfold MotionBarsElement_bindTimeline.
  rewrite Hget. unfold closestId. now rewrite Hclosest.
Qed.

Lemma find_store_other : forall (A : Type) id id' (v : A) l,
  id <> id' -> find id' (store id v l) = find id' l.
Proof.
  intros A id id' v l Hne. induction l as [|[k x] l IH]; simpl.
  - destruct (Nat.eqb id' id) eqn:E; auto.
    apply Nat.eqb_eq in E. congruence.
  - destruct (Nat.eqb id k) eqn:E; simpl.
    + apply Nat.eqb_eq in E. subst k.
      destruct (Nat.eqb id' id) eqn:E'; auto.
      apply Nat.eqb_eq in E'. congruence.
    + destruct (Nat.eqb id' k); auto.
Qed.

Lemma getElement_putElement_other : forall doc id id' el,
  id <> id' -> getElement (putElement doc id el) id' = getElement doc id'.
Proof.
  intros doc id id' el Hne. unfold getElement, putElement.
  destruct (Nat.eqb id 0) eqn:E; simpl.
  - apply Nat.eqb_eq in E. subst id.
    destruct (Nat.eqb id' 0) eqn:E'; auto.
    apply Nat.eqb_eq in E'. congruence.
  - destruct (Nat.eqb id' 0); auto. now apply find_store_other.
Qed.

Lemma getElement_modify : forall doc id f,
  getElement (modify doc id f) id = option_map f (getElement doc id).
Proof.
  intros doc id f. unfold modify.
  destruct (getElement doc id) as [el|] eqn:E; simpl.
  - apply getElement_putElement.
  - exact E.
Qed.

Lemma getElement_modify_other : forall doc id id' f,
  id <> id' -> getElement (modify doc id f) id' = getElement doc id'.
Proof.
  intros doc id id' f Hne. unfold modify.
  destruct (getElement doc id); auto.
  now apply getElement_putElement_other.
Qed.

Lemma closures_modify : forall doc id f,
  closures (modify doc id f) = closures doc.
Proof.
  intros doc id f. unfold modify, putElement.
  destruct (getElement doc id); auto.
  destruct (Nat.eqb id 0); reflexivity.
Qed.

(** X13.  What [bindTimeline] does when it finds a root: it removes the stored
    handler, if there is one, from that root and from no other element,
    makes one new closure, stores it and adds it to the root as the one
    new listener. *)
Lemma bindTimeline_effect : forall doc id this root r,
  getElement doc id = Some this ->
  closestId doc id this = Some root ->
  root <> id ->
  getElement doc root = Some r ->
  getElement (MotionBarsElement_bindTimeline doc id) root
  = Some (addEventListener
            (match tickHandler this with
             | Some old => removeEventListener r TICK old
             | None => r
             end) TICK (List.length (closures doc)))
  /\ getElement (MotionBarsElement_bindTimeline doc id) id
     = Some (setTickHandler this (Some (List.length (closures doc))))
  /\ closures (MotionBarsElement_bindTimeline doc id)
     = closures doc ++ [(List.length (closures doc), id)]
  /\ (forall other, other <> root -> other <> id ->
      getElement (MotionBarsElement_bindTimeline doc id) other
      = getElement doc other).
Proof.
  intros doc id this root r Hget Hroot Hne Hr.
  unfold MotionBarsElement_bindTimeline. rewrite Hget, Hroot.
  set (doc1 := match tickHandler this with
               | Some old =>
                   modify doc root (fun r0 => removeEventListener r0 TICK old)
               | None => doc
               end).
  assert (H1root : getElement doc1 root
                   = Some (match tickHandler this with
                           | Some old => removeEventListener r TICK old
                           | None => r
                           end)).
  { subst doc1. destruct (tickHandler this); [|exact Hr].
    now rewrite getElement_modify, Hr. }
  assert (H1id : getElement doc1 id = Some this).
  { subst doc1. destruct (tickHandler this); [|exact Hget].
    now rewrite getElement_modify_other. }
  assert (H1other : forall other, other <> root ->
                    getElement doc1 other = getElement doc other).
  { intros other Ho. subst doc1. destruct (tickHandler this); auto.
    now rewrite getElement_modify_other. }
  assert (H1c : closures doc1 = closures doc).
  { subst doc1. destruct (tickHandler this); auto. apply closures_modify. }
  unfold newClosure. rewrite H1c.
  set (doc2 := {| documentElement := documentElement doc1;
                  elements := elements doc1;
                  closures := closures doc ++
                              [(List.length (closures doc), id)] |}).
  assert (H2 : forall k, getElement doc2 k = getElement doc1 k)
    by reflexivity.
  repeat split.
  - rewrite getElement_modify, getElement_modify_other by auto.
    now rewrite H2, H1root.
  - rewrite getElement_modify_other, getElement_modify by auto.
    now rewrite H2, H1id.
  - now rewrite !closures_modify.
  - intros other Ho1 Ho2.
    rewrite !getElement_modify_other by auto.
    rewrite H2. now apply H1other.
Qed.

(** C1, where the code departs from it.  The bar chart is inserted under
    a presentation root and receives a tick; it then has one
    subscription, on the root.  After its removal the subscription is
    still there, and the next tick on the root writes a new transform to
    each of its bars. *)
Theorem detach_keeps_tick_subscription :
  subscriptions chartTicked 3 = [(1%nat, 0%nat)]
  /\ subscriptions chartDetached 3 = [(1%nat, 0%nat)]
  /\ option_map parentNode (getElement chartDetached 3) = Some None
  /\ barTransforms chartDetached 3
     = map (fun b => Some [Chars "scaleY("; Scale (fst b) (Fin 0) (snd b);
                           Chars ")"])
           [ (Fin (38 # 71), 0%nat); (Fin (52 # 71), 1%nat);
             (Fin (24 # 71), 2%nat); (Fin 1, 3%nat);
             (Fin (43 # 71), 4%nat); (Fin (66 # 71), 5%nat) ]
  /\ barTransforms chartTickedLater 3
     = map (fun b => Some [Chars "scaleY("; Scale (fst b) (Fin 1) (snd b);
                           Chars ")"])
           [ (Fin (38 # 71), 0%nat); (Fin (52 # 71), 1%nat);
             (Fin (24 # 71), 2%nat); (Fin 1, 3%nat);
             (Fin (43 # 71), 4%nat); (Fin (66 # 71), 5%nat) ].
Proof. repeat split; vm_compute; reflexivity. Qed.

Lemma render_keeps_listeners : forall doc this,
  eventListeners (fst (MotionBarsElement_render doc this))
  = eventListeners this
  /\ tickHandler (fst (MotionBarsElement_render doc this)) = tickHandler this.
Proof.
  intros doc this. unfold MotionBarsElement_render. cbv zeta.
  match goal with
  | |- context [match ?b with _ => _ end] => destruct b as [[wrap bars]|e]
  end; split; reflexivity.
Qed.

Lemma subscriptionsOn_store : forall doc this id el el' l,
  find id l = Some el ->
  eventListeners el' = eventListeners el ->
  flat_map (subscriptionsOn doc this) (store id el' l)
  = flat_map (subscriptionsOn doc this) l.
Proof.
  intros doc this id el el' l. induction l as [|[k x] l IH]; simpl;
    intros Hfind Hl; [discriminate|].
  destruct (Nat.eqb id k) eqn:E; simpl.
  - inversion Hfind; subst. apply Nat.eqb_eq in E. subst k.
    f_equal. unfold subscriptionsOn. simpl. now rewrite Hl.
  - f_equal. now apply IH.
Qed.

(** X15.  A re-render on a change of the [props] attribute subscribes nothing
    and unsubscribes nothing: the subscriptions of every instance, the
    closures and the stored handler are what they were. *)
Lemma rerender_keeps_subscriptions : forall doc id other,
  subscriptions (fst (MotionBarsElement_attributeChangedCallback doc id)) other
  = subscriptions doc other
  /\ closures (fst (MotionBarsElement_attributeChangedCallback doc id))
     = closures doc
  /\ option_map tickHandler
       (getElement (fst (MotionBarsElement_attributeChangedCallback doc id)) id)
     = option_map tickHandler (getElement doc id).
Proof.
  intros doc id other.
  unfold MotionBarsElement_attributeChangedCallback,
    MotionBarsElement_renderIn.
  destruct (getElement doc id) as [this|] eqn:Hget;
    [|simpl; rewrite Hget; auto].
  destruct (render_keeps_listeners doc this) as [Hl Ht].
  destruct (MotionBarsElement_render doc this) as [this' outcome].
  simpl in *. rewrite getElement_putElement. simpl. rewrite Ht.
  split; [|split; [|reflexivity]].
  - unfold subscriptions, putElement, getElement in *.
    destruct (Nat.eqb id 0) eqn:E; simpl.
    + inversion Hget; subst. unfold subscriptionsOn at 1 3. simpl.
      now rewrite Hl.
    + f_equal.
      assert (G : forall d1 d2 l, closures d1 = closures d2 ->
                flat_map (subscriptionsOn d1 other) l
                = flat_map (subscriptionsOn d2 other) l).
      { intros d1 d2 l Hc. apply flat_map_ext. intros a.
        unfold subscriptionsOn. now rewrite Hc. }
      etransitivity; [apply G with (d2 := doc); reflexivity|].
      eapply subscriptionsOn_store; eauto.
  - unfold putElement. destruct (Nat.eqb id 0); reflexivity.
Qed.

(** C7, where the code departs from it.  The bar chart that was removed
    from the root 1 and is then inserted under the root 2 has two
    subscriptions at once, the stale one on 1 and the new one on 2,
    ([bindTimeline] removes the stored handler from the new root only),
    and a tick on the root 1 still rescales its bars. *)
Theorem moved_chart_has_two_subscriptions :
  subscriptions chartDetached 3 = [(1%nat, 0%nat)]
  /\ subscriptions chartMoved 3 = [(1%nat, 0%nat); (2%nat, 1%nat)]
  /\ option_map parentNode (getElement chartMoved 3) = Some (Some 2%nat)
  /\ option_map tickHandler (getElement chartMoved 3) = Some (Some 1%nat)
  /\ nth 3 (barTransforms chartMoved 3) None
     = Some [Chars "scaleY("; Digits (Fin 1); Chars ")"]
  /\ nth 3 (barTransforms chartMovedTicked 3) None
     = Some [Chars "scaleY("; Scale (Fin 1) (Fin 2) 3; Chars ")"].
Proof. repeat split; vm_compute; reflexivity. Qed.

(** ** The fallback registration *)

Lemma lookup_app : forall (A : Type) k (a b : list (string * A)),
  lookup k (a ++ b)
  = match lookup k a with Some v => Some v | None => lookup k b end.
Proof.
  intros A k a b. induction a as [|[k' v] a IH]; simpl; auto.
  destruct (String.eqb k k'); auto.
Qed.

Lemma define_appends : forall reg name ctor reg',
  customElements_define reg name ctor = Ok reg' -> reg' = reg ++ [(name, ctor)].
Proof.
  intros reg name ctor reg' H. unfold customElements_define in H.
  destruct (negb (isValidCustomElementName name)); [discriminate|].
  destruct (customElements_get reg name); [discriminate|].
  destruct (hasConstructor reg ctor); [discriminate|].
  now inversion H.
Qed.

Lemma defineFallbacks_spec : forall tags reg reg' outcome,
  defineFallbacks tags reg = (reg', outcome) ->
  exists added,
    reg' = reg ++ added
    /\ NoDup (map fst added)
    /\ Forall (fun d => snd d = FallbackElement /\ In (fst d) tags
                        /\ customElements_get reg (fst d) = None) added
    /\ (outcome = Ok tt ->
        Forall (fun tag => customElements_get reg' tag <> None) tags)
    /\ defineFallbacks tags reg' = (reg', outcome).
Proof.
  unfold customElements_get.
  induction tags as [|tag rest IH]; intros reg reg' outcome H; simpl in H.
  - inversion H; subst. exists []. rewrite app_nil_r.
    repeat split; auto; constructor.
  - unfold customElements_get in H.
    destruct (lookup tag reg) as [c|] eqn:Hget.
    + destruct (IH _ _ _ H) as (added & -> & Hnd & Hall & Hok & Hrep).
      exists added. repeat split; auto.
      * eapply Forall_impl; [|exact Hall]. simpl. intros d (? & ? & ?).
        auto.
      * intros Ho. constructor; [|now apply Hok].
        rewrite lookup_app, Hget. discriminate.
      * simpl. unfold customElements_get. now rewrite lookup_app, Hget.
    + destruct (customElements_define reg tag FallbackElement) as [r1|e]
        eqn:Hdef.
      * pose proof (define_appends _ _ _ _ Hdef) as ->.
        destruct (IH _ _ _ H) as (added & -> & Hnd & Hall & Hok & Hrep).
        assert (Htag : lookup tag (reg ++ [(tag, FallbackElement)])
                       = Some FallbackElement).
        { rewrite lookup_app, Hget. simpl. now rewrite String.eqb_refl. }
        exists ((tag, FallbackElement) :: added).
        split; [now rewrite <- app_assoc|].
        split; [|split; [|split]].
        -- simpl. constructor; [|exact Hnd]. intros Hin.
           apply in_map_iff in Hin. destruct Hin as (d & Hd & Hin).
           rewrite Forall_forall in Hall.
           destruct (Hall d Hin) as (_ & _ & Hnone).
           rewrite Hd in Hnone. congruence.
        -- constructor; [simpl; auto|].
           eapply Forall_impl; [|exact Hall]. simpl. intros d (? & ? & Hn).
           repeat split; auto.
           rewrite lookup_app in Hn. now destruct (lookup (fst d) reg).
        -- intros Ho. constructor; [|now apply Hok].
           rewrite lookup_app, Htag. discriminate.
        -- simpl. unfold customElements_get.
           rewrite lookup_app, Htag. exact Hrep.
      * inversion H; subst. exists []. rewrite app_nil_r.
        repeat split; auto; try constructor; try discriminate.
        simpl. unfold customElements_get. now rewrite Hget, Hdef.
Qed.

Lemma fallback_label : forall this,
  (childNodes this = [] ->
   childNodes (FallbackElement_connectedCallback this)
   = [ Element "div" FALLBACK_STYLE []
         [Text [Chars ("<" ++ toLowerCase (tagName this) ++ ">")]] ])
  /\ (childNodes this <> [] -> FallbackElement_connectedCallback this = this)
  /\ FallbackElement_connectedCallback (FallbackElement_connectedCallback this)
     = FallbackElement_connectedCallback this.
Proof.
  intros this. unfold FallbackElement_connectedCallback.
  destruct (childNodes this) as [|n l] eqn:E; simpl.
  - split; [|split].
    + intros _. unfold hostAppendChild. simpl. now rewrite E.
    + intros H. now elim H.
    + unfold hostAppendChild. simpl. now rewrite E.
  - split; [|split]; auto.
    + discriminate.
    + now rewrite E.
Qed.




(** The scan binds every tag to the one class [FallbackElement], and the
    registry refuses a constructor it already holds: of two unregistered
    tags the second is rejected with NotSupportedError and gets no
    definition, on a fresh registry and after [registerVideoMLComponents]
    alike. *)
Lemma second_fallback_tag_is_rejected :
  registerFallbackComponents freshWindow sceneTwoTags
  = ({| customElements := Some [("x-a", FallbackElement)];
        aliasClasses := 0 |}, Throw NotSupportedError)
  /\ snd (registerVideoMLComponents freshWindow) = Ok tt
  /\ snd (registerFallbackComponents
            (fst (registerVideoMLComponents freshWindow)) sceneTwoTags)
     = Throw NotSupportedError
  /\ option_map (fun reg => customElements_get reg "x-b")
       (customElements
          (fst (registerFallbackComponents
                  (fst (registerVideoMLComponents freshWindow))
                  sceneTwoTags)))
     = Some None.
Proof. repeat split; vm_compute; reflexivity. Qed.

(** * Further properties *)

(** ** What a render step reads and writes *)

(** X1.  The render step of every component discards whatever children
    the element holds: its result depends on the attribute, the place and
    the theme of the element, never on its current subtree. *)
Theorem render_discards_children :
  forall (c : Component) (doc : Document) (this : HTMLElement)
         (nodes : list Node),
  render c doc (setChildNodes this nodes) = render c doc this.
Proof.
  intros c doc this nodes.
  destruct c; simpl;
    match goal with
    | |- ?f doc _ = _ => unfold f
    end; cbv zeta; rewrite !clear_spec; reflexivity.
Qed.

(** X2.  The render step of every component leaves the tag, the
    attributes, the parent, the custom properties, the event listeners and
    the stored tick handler of the element as they were; only the bar
    chart touches [barNodes]. *)
Theorem render_keeps_host_state :
  forall (c : Component) (doc : Document) (this : HTMLElement),
  tagName (fst (render c doc this)) = tagName this
  /\ attributes (fst (render c doc this)) = attributes this
  /\ parentNode (fst (render c doc this)) = parentNode this
  /\ customProperties (fst (render c doc this)) = customProperties this
  /\ eventListeners (fst (render c doc this)) = eventListeners this
  /\ tickHandler (fst (render c doc this)) = tickHandler this
  /\ (c <> MotionBars -> barNodes (fst (render c doc this)) = barNodes this).
Proof.
  intros c doc this.
  destruct c; simpl;
    match goal with
    | |- context [?f doc this] => unfold f
    end; cbv zeta;
    match goal with
    | |- context [commit _ ?b] => destruct b
    | |- context [match ?b with _ => _ end] => destruct b as [[? ?]|?]
    end; simpl; repeat split; auto; congruence.
Qed.

(** The title slide, which is not the bar chart. *)
Lemma render_keeps_host_state_witness :
  TitleSlide <> MotionBars
  /\ barNodes (fst (render TitleSlide stage
                      (element "TITLE-SLIDE" (Some 1%nat) None))) = [].
Proof.
  split; [discriminate|].
  apply (render_keeps_host_state TitleSlide stage
           (element "TITLE-SLIDE" (Some 1%nat) None)).
  discriminate.
Defined.


(** ** The progress indicator *)

Lemma zero_value : numZ 0 = Fin 0.
Proof. reflexivity. Qed.

Ltac qcases :=
  repeat match goal with
         | H : Qle_bool _ _ = true |- _ => apply Qle_bool_iff in H
         | H : Qle_bool _ _ = false |- _ => apply Qle_bool_false in H
         | H : negb _ = true |- _ => apply negb_true_iff in H
         | H : negb _ = false |- _ => apply negb_false_iff in H
         end;
  try discriminate; try congruence; try reflexivity;
  try (apply Qle_bool_iff; lra); try (exfalso; lra).

Lemma clampPercent_bounds : forall p,
  (p = NaN -> clampPercent p = NaN)
  /\ (p <> NaN ->
      Num.leb (numZ 0) (clampPercent p) = true
      /\ Num.leb (clampPercent p) (numZ 100) = true)
  /\ (Num.ltb p (numZ 0) = true -> clampPercent p = numZ 0)
  /\ (Num.ltb (numZ 100) p = true -> clampPercent p = numZ 100)
  /\ (Num.ltb (numZ 0) p = true -> Num.ltb p (numZ 100) = true ->
      clampPercent p = p).
Proof.
  intros p. unfold clampPercent. rewrite zero_value, hundred_value.
  destruct p as [| | |q]; simpl;
    try (repeat split; intros; qcases; fail).
  destruct (Qle_bool 100 q) eqn:E100; destruct (Qle_bool q 0) eqn:E0;
    simpl; rewrite ?E100, ?E0; simpl;
    repeat split; intros; qcases.
Qed.



(** ** Lists of items *)

Lemma fold_appendChild : forall (A : Type) (f : A -> Node) (items : list A)
  name st ds ch,
  fold_left (fun parent item => appendChild parent (f item)) items
    (Element name st ds ch)
  = Element name st ds (ch ++ map f items).
Proof.
  intros A f items. induction items as [|x items IH]; intros; simpl.
  - now rewrite app_nil_r.
  - rewrite IH, <- app_assoc. reflexivity.
Qed.



Lemma gridCard_background : forall doc item,
  getStyle (gridCard doc item) "background"
  = Some (lit (surface (resolveTheme doc None))).
Proof.
  intros doc item. unfold gridCard, appendTextIf. cbv zeta.
  destruct (ToBoolean (GetOpt item "text")); reflexivity.
Qed.



(** ** The registration of the catalog *)

Lemma define_extends : forall reg name ctor reg',
  define reg name ctor = Ok reg' ->
  customElements_get reg' name <> None
  /\ ((customElements_get reg name <> None /\ reg' = reg)
      \/ (customElements_get reg name = None /\ reg' = reg ++ [(name, ctor)])).
Proof.
  intros reg name ctor reg' H. unfold define in H.
  destruct (customElements_get reg name) as [c|] eqn:E.
  - inversion H; subst. rewrite E. split; [discriminate|].
    left. split; [discriminate|reflexivity].
  - pose proof (define_appends _ _ _ _ H) as ->.
    split; [|right; split; reflexivity].
    unfold customElements_get in *. rewrite lookup_app, E. simpl.
    rewrite String.eqb_refl. discriminate.
Qed.

Lemma runRegistrations_spec : forall todo reg aliases reg' aliases' outcome,
  runRegistrations todo reg aliases = (reg', aliases', outcome) ->
  exists added,
    reg' = reg ++ added
    /\ Forall (fun d => In (fst d) (map registrationName todo)
                        /\ customElements_get reg (fst d) = None) added
    /\ (outcome = Ok tt ->
        Forall (fun r => customElements_get reg' (registrationName r) <> None)
               todo).
Proof.
  unfold customElements_get.
  induction todo as [|r rest IH]; intros reg aliases reg' aliases' outcome H;
    simpl in H.
  - inversion H; subst. exists []. rewrite app_nil_r.
    repeat split; constructor.
  - assert (G : forall name ctor aliases1,
      match define reg name ctor with
      | Ok r1 => runRegistrations rest r1 aliases1
      | Throw e => (reg, aliases1, Throw e)
      end = (reg', aliases', outcome) ->
      exists added,
        reg' = reg ++ added
        /\ Forall (fun d => In (fst d) (name :: map registrationName rest)
                            /\ lookup (fst d) reg = None) added
        /\ (outcome = Ok tt ->
            lookup name reg' <> None
            /\ Forall (fun r0 => lookup (registrationName r0) reg' <> None)
                      rest)).
    { intros name ctor aliases1 Hrun.
      destruct (define reg name ctor) as [r1|e] eqn:Hdef.
      - destruct (IH _ _ _ _ _ Hrun) as (added & -> & Hall & Hok).
        destruct (define_extends _ _ _ _ Hdef) as [Hnow [[Hwas ->]|[Hwas ->]]];
          unfold customElements_get in *.
        + exists added. repeat split.
          * eapply Forall_impl; [|exact Hall]. simpl. intros d [? ?]. auto.
          * rewrite lookup_app. destruct (lookup name reg); congruence.
          * now apply Hok.
        + exists ((name, ctor) :: added). rewrite <- app_assoc.
          repeat split.
          * constructor; [simpl; auto|].
            eapply Forall_impl; [|exact Hall]. simpl. intros d [? Hn].
            split; auto. rewrite lookup_app in Hn.
            now destruct (lookup (fst d) reg).
          * change (reg ++ [(name, ctor)] ++ added)
              with (reg ++ ([(name, ctor)] ++ added)).
            rewrite app_assoc, lookup_app.
            destruct (lookup name (reg ++ [(name, ctor)])); congruence.
          * rewrite <- app_assoc in Hok. now apply Hok.
      - inversion Hrun; subst. exists []. rewrite app_nil_r.
        repeat split; try constructor; discriminate. }
    destruct r as [name ctor|name Base].
    + destruct (G name ctor aliases) as (added & Hreg & Hall & Hok).
      { exact H. }
      exists added. repeat split; auto.
      intros Ho. destruct (Hok Ho). now constructor.
    + destruct (G name (AliasElement aliases Base) (S aliases))
        as (added & Hreg & Hall & Hok).
      { destruct (define reg name (AliasElement aliases Base)); exact H. }
      exists added. repeat split; auto.
      intros Ho. destruct (Hok Ho). now constructor.
Qed.

Lemma runRegistrations_defined : forall todo reg aliases,
  Forall (fun r => customElements_get reg (registrationName r) <> None) todo ->
  runRegistrations todo reg aliases
  = (reg, (aliases + aliasCount todo)%nat, Ok tt).
Proof.
  induction todo as [|r rest IH]; intros reg aliases Hall; simpl.
  - now rewrite Nat.add_0_r.
  - inversion Hall as [|? ? Hr Hrest]; subst.
    destruct r as [name ctor|name Base]; simpl in Hr; unfold define;
      destruct (customElements_get reg name); try congruence.
    + rewrite IH by exact Hrest. reflexivity.
    + rewrite IH by exact Hrest. unfold aliasCount. simpl.
      now rewrite Nat.add_succ_r.
Qed.

(** X7.  [registerVideoMLComponents] only adds: the definitions the
    registry had stay as they were, in place, and every definition added
    binds a tag name of the catalog that had no definition before. *)
Theorem registration_only_adds :
  forall (w : Window) (reg : Registry),
  customElements w = Some reg ->
  exists added,
    customElements (fst (registerVideoMLComponents w)) = Some (reg ++ added)
    /\ Forall (fun d => In (fst d) (map registrationName REGISTRATIONS)
                        /\ customElements_get reg (fst d) = None) added.
Proof.
  intros w reg Hreg. unfold registerVideoMLComponents. rewrite Hreg.
  destruct (runRegistrations REGISTRATIONS reg (aliasClasses w))
    as [[reg' aliases'] outcome] eqn:E.
  destruct (runRegistrations_spec _ _ _ _ _ _ E) as (added & -> & Hall & _).
  exists added. split; [reflexivity|exact Hall].
Qed.

(** A registry that already binds [title-slide] to the fallback keeps that
    definition. *)
Lemma registration_only_adds_witness :
  exists added,
    customElements
      (fst (registerVideoMLComponents
              {| customElements := Some [("title-slide", FallbackElement)];
                 aliasClasses := 0 |}))
    = Some ([("title-slide", FallbackElement)] ++ added)
    /\ Forall (fun d => In (fst d) (map registrationName REGISTRATIONS)
                        /\ customElements_get
                             [("title-slide", FallbackElement)] (fst d)
                           = None) added.
Proof.
  apply (registration_only_adds
           {| customElements := Some [("title-slide", FallbackElement)];
              aliasClasses := 0 |}).
  reflexivity.
Defined.

(** X8.  Once [registerVideoMLComponents] has completed, every tag name
    of the catalog is defined, and calling it again completes and leaves
    the registry as it is: it is idempotent. *)
Theorem registration_is_idempotent :
  forall (w : Window),
  customElements w <> None ->
  snd (registerVideoMLComponents w) = Ok tt ->
  (exists reg,
     customElements (fst (registerVideoMLComponents w)) = Some reg
     /\ Forall (fun r => customElements_get reg (registrationName r) <> None)
               REGISTRATIONS)
  /\ snd (registerVideoMLComponents (fst (registerVideoMLComponents w)))
     = Ok tt
  /\ customElements
       (fst (registerVideoMLComponents (fst (registerVideoMLComponents w))))
     = customElements (fst (registerVideoMLComponents w)).
Proof.
  intros w Hsome Hok. unfold registerVideoMLComponents in *.
  destruct (customElements w) as [reg|] eqn:Hreg; [|congruence].
  destruct (runRegistrations REGISTRATIONS reg (aliasClasses w))
    as [[reg' aliases'] outcome] eqn:E.
  simpl in Hok. subst outcome.
  destruct (runRegistrations_spec _ _ _ _ _ _ E) as (added & _ & _ & Hdef).
  specialize (Hdef eq_refl).
  cbn [fst customElements aliasClasses].
  rewrite (runRegistrations_defined _ _ _ Hdef).
  repeat split. exists reg'. split; [reflexivity|exact Hdef].
Qed.

(** The start-up call on an empty registry completes, and so does a
    second call, with the same registry. *)
Lemma registration_is_idempotent_witness :
  snd (registerVideoMLComponents freshWindow) = Ok tt
  /\ snd (registerVideoMLComponents (fst (registerVideoMLComponents freshWindow)))
     = Ok tt
  /\ customElements
       (fst (registerVideoMLComponents
               (fst (registerVideoMLComponents freshWindow))))
     = customElements (fst (registerVideoMLComponents freshWindow)).
Proof.
  split; [reflexivity|].
  apply (registration_is_idempotent freshWindow).
  - discriminate.
  - reflexivity.
Defined.

(** ** The demo placeholder *)

(** X9.  The demo placeholder renders once: attached without child nodes
    it gets one card with two lines, the first naming its tag in lower
    case; attached with child nodes it is left as it is, so a second
    attach changes nothing. *)
Theorem demo_placeholder_renders_once :
  forall (doc : Document) (this : HTMLElement),
  (childNodes this = [] ->
   exists st first second,
     childNodes (DemoPlaceholderElement_connectedCallback doc this)
     = [Element "div" st [] [first; second]]
     /\ textContent first
        = [Chars ("Demo: <" ++ toLowerCase (tagName this) ++ ">")]
     /\ textContent second
        = lit "This demo component is a placeholder in the DOM runtime.")
  /\ (childNodes this <> [] ->
      DemoPlaceholderElement_connectedCallback doc this = this)
  /\ DemoPlaceholderElement_connectedCallback doc
       (DemoPlaceholderElement_connectedCallback doc this)
     = DemoPlaceholderElement_connectedCallback doc this.
Proof.
  intros doc this. unfold DemoPlaceholderElement_connectedCallback.
  destruct (childNodes this) as [|n l] eqn:E; simpl.
  - split; [|split].
    + intros _. unfold hostAppendChild. simpl. rewrite E.
      eexists; eexists; eexists. split; [reflexivity|].
      split; reflexivity.
    + intros H. now elim H.
    + unfold hostAppendChild. simpl. now rewrite E.
  - split; [|split]; auto.
    + discriminate.
    + now rewrite E.
Qed.

(** ** The tick handler *)

Lemma filter_assign_other : forall key (v : DOMString) st,
  filter (fun kv : string * DOMString => negb (String.eqb (fst kv) key))
         (assign key v st)
  = filter (fun kv => negb (String.eqb (fst kv) key)) st.
Proof.
  intros key v st. induction st as [|[k x] st IH]; simpl.
  - now rewrite String.eqb_refl.
  - destruct (String.eqb key k) eqn:E; simpl.
    + apply String.eqb_eq in E. subst k. now rewrite String.eqb_refl.
    + rewrite IH. reflexivity.
Qed.

Lemma eraseTransform_scaleBar : forall time idx node,
  eraseTransform (scaleBar time idx node) = eraseTransform node.
Proof.
  intros time idx [d|name st ds ch]; [reflexivity|].
  unfold scaleBar, setStyle, assignStyle. simpl.
  now rewrite filter_assign_other.
Qed.

Lemma map_updateNth : forall (A B : Type) (g : A -> B) (f : A -> A) i l,
  (forall x, g (f x) = g x) -> map g (updateNth f i l) = map g l.
Proof.
  intros A B g f i l H. revert i. induction l as [|x l IH]; intros [|i];
    simpl; auto.
  - now rewrite H.
  - now rewrite IH.
Qed.

Lemma eraseTransform_updateAt : forall f p nodes,
  (forall n, eraseTransform (f n) = eraseTransform n) ->
  map eraseTransform (updateAt f p nodes) = map eraseTransform nodes.
Proof.
  intros f p. induction p as [|i rest IH]; intros nodes H; simpl; auto.
  destruct rest as [|j rest'].
  - now apply map_updateNth.
  - apply map_updateNth. intros [d|name st ds ch]; simpl; auto.
    f_equal. now apply IH.
Qed.

Lemma eraseTransform_scaleBars : forall time bars idx nodes,
  map eraseTransform (scaleBars time bars idx nodes)
  = map eraseTransform nodes.
Proof.
  intros time bars. induction bars as [|bar rest IH]; intros idx nodes;
    simpl; auto.
  rewrite IH.
  apply (eraseTransform_updateAt (scaleBar time idx)).
  apply eraseTransform_scaleBar.
Qed.

(** X10.  A call of the tick handler changes nothing but the [transform]
    entries of inline styles: with those left aside the subtree of the
    element is what it was (no node added, removed or retexted), and the
    attributes, the bar references, the listeners and the stored handler
    are untouched. *)
Theorem tick_changes_only_transforms :
  forall (detail : JSValue) (this : HTMLElement),
  map eraseTransform (childNodes (tickHandler_call detail this))
  = map eraseTransform (childNodes this)
  /\ barNodes (tickHandler_call detail this) = barNodes this
  /\ attributes (tickHandler_call detail this) = attributes this
  /\ eventListeners (tickHandler_call detail this) = eventListeners this
  /\ tickHandler (tickHandler_call detail this) = tickHandler this
  /\ parentNode (tickHandler_call detail this) = parentNode this.
Proof.
  intros detail this. unfold tickHandler_call. cbv zeta. simpl.
  repeat split. apply eraseTransform_scaleBars.
Qed.

Lemma nth_error_updateNth_same : forall (A : Type) (f : A -> A) i l,
  nth_error (updateNth f i l) i = option_map f (nth_error l i).
Proof.
  intros A f i l. revert i. induction l as [|x l IH]; intros [|i]; simpl; auto.
Qed.

Lemma nth_error_updateNth_other : forall (A : Type) (f : A -> A) i j l,
  i <> j -> nth_error (updateNth f i l) j = nth_error l j.
Proof.
  intros A f i j l. revert i j.
  induction l as [|x l IH]; intros [|i] [|j] H; simpl; auto.
  congruence.
Qed.

Lemma nodeAt_nil : forall p, nodeAt [] p = None.
Proof.
  intros [|i [|j rest]]; simpl; auto; destruct i; reflexivity.
Qed.

Lemma nodeAt_cons : forall nodes i j rest,
  nodeAt nodes (i :: j :: rest)
  = match nth_error nodes i with
    | Some n => nodeAt (childrenOf n) (j :: rest)
    | None => None
    end.
Proof. reflexivity. Qed.

Lemma updateAt_cons : forall f nodes i j rest,
  updateAt f (i :: j :: rest) nodes
  = updateNth (withChildren (updateAt f (j :: rest))) i nodes.
Proof. reflexivity. Qed.

Lemma nodeAt_below_updated : forall h n q,
  nodeAt (childrenOf (withChildren h n)) q
  = match n with
    | Element _ _ _ ch => nodeAt (h ch) q
    | Text _ => None
    end.
Proof.
  intros h [d|name st ds ch] q; simpl; auto. apply nodeAt_nil.
Qed.

Lemma nodeAt_updateAt_same : forall f p nodes,
  nodeAt (updateAt f p nodes) p = option_map f (nodeAt nodes p).
Proof.
  intros f p. induction p as [|i rest IH]; intros nodes; [reflexivity|].
  destruct rest as [|j rest'].
  - apply nth_error_updateNth_same.
  - rewrite updateAt_cons, !nodeAt_cons, nth_error_updateNth_same.
    destruct (nth_error nodes i) as [n|]; cbn [option_map]; auto.
    rewrite nodeAt_below_updated.
    destruct n as [d|name st ds ch]; cbn [childrenOf].
    + now rewrite nodeAt_nil.
    + apply IH.
Qed.

Lemma nodeAt_updateAt_other : forall f p q nodes,
  List.length p = List.length q -> p <> q ->
  nodeAt (updateAt f p nodes) q = nodeAt nodes q.
Proof.
  intros f p. induction p as [|i rest IH]; intros q nodes Hlen Hne.
  - reflexivity.
  - destruct q as [|j qrest]; [discriminate|].
    destruct rest as [|i' rest']; destruct qrest as [|j' qrest'];
      try discriminate.
    + simpl. apply nth_error_updateNth_other. congruence.
    + rewrite updateAt_cons, !nodeAt_cons.
      destruct (Nat.eq_dec i j) as [->|Hij].
      * rewrite nth_error_updateNth_same.
        destruct (nth_error nodes j) as [n|]; cbn [option_map]; auto.
        rewrite nodeAt_below_updated.
        destruct n as [d|name st ds ch]; cbn [childrenOf].
        -- now rewrite nodeAt_nil.
        -- apply IH; [simpl in *; lia|congruence].
      * now rewrite nth_error_updateNth_other.
Qed.

Lemma scaleBars_other : forall time bars idx nodes q,
  Forall (fun p => List.length p = List.length q /\ p <> q) bars ->
  nodeAt (scaleBars time bars idx nodes) q = nodeAt nodes q.
Proof.
  intros time bars. induction bars as [|bar rest IH]; intros idx nodes q H;
    simpl; auto.
  inversion H as [|? ? [Hlen Hne] Hrest]; subst.
  rewrite IH by exact Hrest. now apply nodeAt_updateAt_other.
Qed.

Lemma scaleBars_each : forall time bars idx nodes len,
  NoDup bars -> Forall (fun p => List.length p = len) bars ->
  map (nodeAt (scaleBars time bars idx nodes)) bars
  = map (fun jp => option_map (scaleBar time (fst jp)) (nodeAt nodes (snd jp)))
        (combine (seq idx (List.length bars)) bars).
Proof.
  intros time bars. induction bars as [|bar rest IH];
    intros idx nodes len Hnd Hlen; simpl; auto.
  inversion Hnd as [|? ? Hnotin Hnd']; subst.
  inversion Hlen as [|? ? Hbar Hlen']; subst.
  f_equal.
  - rewrite scaleBars_other.
    + apply (nodeAt_updateAt_same (scaleBar time idx)).
    + apply Forall_forall. intros p Hp. rewrite Forall_forall in Hlen'.
      split; [now apply Hlen'|]. intros ->. contradiction.
  - rewrite (IH (S idx) _ (List.length bar) Hnd' Hlen').
    apply map_ext_in. intros [j p] Hin. simpl.
    apply in_combine_r in Hin.
    rewrite nodeAt_updateAt_other; auto.
    + rewrite Forall_forall in Hlen'. symmetry. now apply Hlen'.
    + intros ->. contradiction.
Qed.

Lemma NoDup_map_injective : forall (A B : Type) (f : A -> B) l,
  (forall a b, f a = f b -> a = b) -> NoDup l -> NoDup (map f l).
Proof.
  intros A B f l Hinj H. induction H as [|x l Hx Hl IH]; simpl; constructor;
    auto.
  intros Hin. apply in_map_iff in Hin. destruct Hin as (y & Hy & Hin).
  apply Hinj in Hy. now subst y.
Qed.

Lemma MotionBars_barNodes : forall doc this,
  let props := parseProps (getAttribute this "props") in
  nullish props = false ->
  exists k,
    barNodes (fst (MotionBarsElement_render doc this))
    = map (fun idx => [0%nat; k; idx; 0%nat])
          (seq 0 (List.length (valuesOf props))).
Proof.
  intros doc this props H.
  unfold MotionBarsElement_render. cbv zeta. fold props.
  rewrite clear_spec.
  rewrite !Get_defined by exact H. cbn [bind].
  match goal with
  | |- context [appendHeader props ?w] =>
      destruct (appendHeader_children props w H) as [hdr Hhdr];
      rewrite Hhdr
  end.
  cbn [bind fst]. eexists. reflexivity.
Qed.

Lemma combine_seq_map : forall (A B C D : Type) (g : A -> C) (h : B -> C)
  (F : nat -> C -> D) (xs : list A) (ys : list B) s,
  map g xs = map h ys ->
  map (fun jp => F (fst jp) (g (snd jp))) (combine (seq s (List.length xs)) xs)
  = map (fun jp => F (fst jp) (h (snd jp))) (combine (seq s (List.length ys)) ys).
Proof.
  intros A B C D g h F xs. induction xs as [|x xs IH]; intros [|y ys] s H;
    simpl in *; try discriminate; auto.
  inversion H as [[Hx Hrest]]. rewrite Hx. f_equal. now apply IH.
Qed.



(** ** The bar chart in the document *)

Lemma lookup_assign_same : forall (A : Type) k (v : A) l,
  lookup k (assign k v l) = Some v.
Proof.
  intros A k v l. induction l as [|[k' x] l IH]; simpl.
  - now rewrite String.eqb_refl.
  - destruct (String.eqb k k') eqn:E; simpl.
    + now rewrite String.eqb_refl.
    + now rewrite E.
Qed.

Lemma MotionBars_render_attributes : forall doc this,
  attributes (fst (MotionBarsElement_render doc this)) = attributes this.
Proof.
  intros doc this. unfold MotionBarsElement_render. cbv zeta.
  match goal with
  | |- context [match ?b with _ => _ end] => destruct b as [[wrap bars]|e]
  end; reflexivity.
Qed.



(** The bar chart placed under the root 1 and not yet bound. *)
Lemma bindTimeline_effect_witness :
  getElement placed 3 = Some (element "MOTION-BARS" (Some 1%nat) None)
  /\ closestId placed 3 (element "MOTION-BARS" (Some 1%nat) None)
     = Some 1%nat
  /\ getElement (MotionBarsElement_bindTimeline placed 3) 1
     = Some (addEventListener (element "VML" (Some 0%nat) None) TICK 0).
Proof.
  split; [reflexivity|]. split; [reflexivity|].
  apply (bindTimeline_effect placed 3
           (element "MOTION-BARS" (Some 1%nat) None) 1
           (element "VML" (Some 0%nat) None));
    try reflexivity. discriminate.
Defined.

Lemma filter_keeps : forall (A : Type) (f : A -> bool) l x,
  In x l -> f x = true -> In x (filter f l).
Proof. intros A f l x Hin Hf. apply filter_In. auto. Qed.

(** X14.  When the disconnected reaction still finds a presentation root
    above the bar chart (the chart left the document together with its
    root) and a handler is stored, the reaction removes exactly that
    handler from the tick listeners of that root: it is no longer
    listed, every other listener of the root is kept, and no other
    element changes. *)
Theorem disconnect_under_root_unsubscribes :
  forall (doc : Document) (id : nat) (this : HTMLElement) (root : nat)
         (r : HTMLElement) (h : nat),
  getElement doc id = Some this ->
  closestId doc id this = Some root ->
  tickHandler this = Some h ->
  getElement doc root = Some r ->
  exists r',
    getElement (MotionBarsElement_disconnectedCallback doc id) root = Some r'
    /\ ~ In (TICK, h) (eventListeners r')
    /\ (forall l, In l (eventListeners r) -> l <> (TICK, h) ->
        In l (eventListeners r'))
    /\ (forall l, In l (eventListeners r') -> In l (eventListeners r))
    /\ (forall other, other <> root ->
        getElement (MotionBarsElement_disconnectedCallback doc id) other
        = getElement doc other).
Proof.
  intros doc id this root r h Hget Hroot Hh Hr.
  unfold MotionBarsElement_disconnectedCallback.
  rewrite Hget, Hroot, Hh.
  exists (removeEventListener r TICK h).
  rewrite getElement_modify, Hr. split; [reflexivity|].
  unfold removeEventListener. simpl. repeat split.
  - intros Hin. apply filter_In in Hin. destruct Hin as [_ Hf].
    cbn [fst snd] in Hf.
    rewrite String.eqb_refl, Nat.eqb_refl in Hf. discriminate.
  - intros [t k] Hin Hne. apply filter_keeps; auto. cbn [fst snd].
    destruct (String.eqb t TICK) eqn:Et; auto.
    destruct (Nat.eqb k h) eqn:Ek; auto.
    apply String.eqb_eq in Et. apply Nat.eqb_eq in Ek. congruence.
  - intros l Hin. apply filter_In in Hin. tauto.
  - intros other Ho. now apply getElement_modify_other.
Qed.

(** The bound bar chart of [chartAttached], its root still above it. *)
Lemma disconnect_under_root_unsubscribes_witness :
  option_map eventListeners (getElement chartAttached 1)
  = Some [(TICK, 0%nat)]
  /\ option_map eventListeners
       (getElement (MotionBarsElement_disconnectedCallback chartAttached 3) 1)
     = Some [].
Proof.
  split; [reflexivity|].
  destruct (getElement chartAttached 3) as [this|] eqn:E3;
    [|vm_compute in E3; discriminate].
  destruct (getElement chartAttached 1) as [r|] eqn:E1;
    [|vm_compute in E1; discriminate].
  destruct (disconnect_under_root_unsubscribes chartAttached 3 this 1 r 0
              E3) as (r' & Hr' & _); try exact E1.
  - vm_compute in E3. inversion E3; subst. reflexivity.
  - vm_compute in E3. inversion E3; subst. reflexivity.
  - reflexivity.
Defined.

(** ** Every render step *)

(** X16.  After the render step of any component the element holds at most
    one child: exactly one, the subtree just built, when the step
    completes, and none when it throws, since the children are removed
    before the payload is read. *)
Theorem render_leaves_one_child_or_none :
  forall (c : Component) (doc : Document) (this : HTMLElement),
  match snd (render c doc this) with
  | Ok _ => exists node, childNodes (fst (render c doc this)) = [node]
  | Throw _ => childNodes (fst (render c doc this)) = []
  end.
Proof.
  intros c doc this.
  destruct c; simpl;
    match goal with
    | |- context [?f doc this] => unfold f
    end; cbv zeta; rewrite ?clear_spec;
    match goal with
    | |- context [commit _ ?b] => destruct b
    | |- context [match ?b with _ => _ end] => destruct b as [[? ?]|?]
    end; simpl; eauto.
Qed.

(** ** The fallback scan *)

Lemma existsb_eqb_In : forall x (set : list string),
  existsb (String.eqb x) set = true <-> In x set.
Proof.
  intros x set. rewrite existsb_exists. split.
  - intros (y & Hin & Heq). apply String.eqb_eq in Heq. now subst.
  - intros Hin. exists x. split; auto. apply String.eqb_refl.
Qed.

Lemma setAdd_In : forall x t set, In x (setAdd t set) <-> x = t \/ In x set.
Proof.
  intros x t set. unfold setAdd.
  destruct (existsb (String.eqb t) set) eqn:E.
  - apply existsb_eqb_In in E. split; auto. intros [->|]; auto.
  - rewrite in_app_iff. simpl. intuition.
Qed.

Lemma setAdd_NoDup : forall t set, NoDup set -> NoDup (setAdd t set).
Proof.
  intros t set Hnd. unfold setAdd.
  destruct (existsb (String.eqb t) set) eqn:E; auto.
  assert (Hnot : ~ In t set).
  { intros Hin. apply existsb_eqb_In in Hin. congruence. }
  clear E. induction Hnd as [|y l Hy Hnd IH]; simpl.
  - constructor; [intros []|constructor].
  - constructor.
    + rewrite in_app_iff. simpl. intros [H|[H|[]]]; auto.
      subst. apply Hnot. now left.
    + apply IH. intros H. apply Hnot. now right.
Qed.

Lemma collect_tags : forall (l : list Node) (acc : list string),
  NoDup acc ->
  let tags := fold_left (fun tags el =>
      let tag := toLowerCase (tagNameOf el) in
      if negb (includesChar "-" tag) then tags
      else setAdd tag tags) l acc in
  NoDup tags
  /\ forall tag, In tag tags <->
       In tag acc
       \/ exists el, In el l /\ tag = toLowerCase (tagNameOf el)
                     /\ includesChar "-" tag = true.
Proof.
  induction l as [|el l IH]; intros acc Hnd; simpl.
  - split; auto. intros tag. split; auto. intros [H|(el & [] & _)]; auto.
  - destruct (includesChar "-" (toLowerCase (tagNameOf el))) eqn:E; simpl.
    + destruct (IH (setAdd (toLowerCase (tagNameOf el)) acc)
                  (setAdd_NoDup _ _ Hnd)) as [H1 H2].
      split; auto. intros tag. rewrite H2, setAdd_In. split.
      * intros [[->|H]|(x & Hx & Ht & Hc)]; auto.
        -- right. exists el. auto.
        -- right. exists x. auto.
      * intros [H|(x & [->|Hx] & Ht & Hc)]; auto.
        right. exists x. auto.
    + destruct (IH acc Hnd) as [H1 H2].
      split; auto. intros tag. rewrite H2. split.
      * intros [H|(x & Hx & Ht & Hc)]; auto. right. exists x. auto.
      * intros [H|(x & [->|Hx] & Ht & Hc)]; auto.
        -- subst. congruence.
        -- right. exists x. auto.
Qed.

(** X17.  The tags the fallback scan collects: no tag twice, and a tag is
    collected exactly when it is the lower-cased tag name of the root or
    of one of its element descendants and holds a hyphen. *)
Theorem hyphenatedTags_spec :
  forall (root : Node),
  NoDup (hyphenatedTags root)
  /\ forall tag, In tag (hyphenatedTags root) <->
       exists el, In el (root :: descendants root)
                  /\ tag = toLowerCase (tagNameOf el)
                  /\ includesChar "-" tag = true.
Proof.
  intros root. unfold hyphenatedTags.
  destruct (collect_tags (root :: descendants root) [] (NoDup_nil _))
    as [H1 H2].
  split; [exact H1|]. intros tag. rewrite H2. split; auto.
  intros [[]|H]; auto.
Qed.

(** X18.  The fallback scan never replaces a definition: a tag that has a
    constructor before the scan has the same constructor after it,
    whether the scan completes or throws, and the count of alias classes
    is untouched. *)
Theorem fallback_scan_keeps_definitions :
  forall (w : Window) (root : Node) (reg : Registry) (tag : string)
         (ctor : Constructor),
  customElements w = Some reg ->
  customElements_get reg tag = Some ctor ->
  option_map (fun reg' => customElements_get reg' tag)
    (customElements (fst (registerFallbackComponents w root)))
  = Some (Some ctor)
  /\ aliasClasses (fst (registerFallbackComponents w root)) = aliasClasses w.
Proof.
  intros w root reg tag ctor Hreg Hget.
  unfold registerFallbackComponents. rewrite Hreg.
  destruct (defineFallbacks (hyphenatedTags root) reg) as [reg' outcome]
    eqn:E.
  destruct (defineFallbacks_spec _ _ _ _ E) as (added & -> & _).
  simpl. split; [|reflexivity].
  unfold customElements_get in *. now rewrite lookup_app, Hget.
Qed.

(** The library registered on a fresh window, then the scan of
    [sceneTwoTags], which throws: [title-slide] keeps its class. *)
Lemma fallback_scan_keeps_definitions_witness :
  snd (registerFallbackComponents
         (fst (registerVideoMLComponents freshWindow)) sceneTwoTags)
  = Throw NotSupportedError
  /\ option_map (fun reg' => customElements_get reg' "title-slide")
       (customElements
          (fst (registerFallbackComponents
                  (fst (registerVideoMLComponents freshWindow))
                  sceneTwoTags)))
     = Some (Some TitleSlideElement).
Proof.
  split; [reflexivity|].
  destruct (customElements (fst (registerVideoMLComponents freshWindow)))
    as [reg|] eqn:E; [|vm_compute in E; discriminate].
  apply (fallback_scan_keeps_definitions
           (fst (registerVideoMLComponents freshWindow)) sceneTwoTags reg
           "title-slide" TitleSlideElement E).
  vm_compute in E. inversion E; subst. reflexivity.
Defined.

Lemma hasConstructor_app : forall reg name ctor,
  hasConstructor (reg ++ [(name, ctor)]) ctor = true.
Proof.
  intros reg name ctor. unfold hasConstructor.
  rewrite existsb_app. simpl.
  assert (H : Constructor_beq ctor ctor = true).
  { apply internal_Constructor_dec_lb. reflexivity. }
  rewrite H. now rewrite orb_true_r.
Qed.

Lemma defineFallbacks_after_one : forall tags reg,
  hasConstructor reg FallbackElement = true ->
  snd (defineFallbacks tags reg) = Ok tt ->
  Forall (fun tag => customElements_get reg tag <> None) tags.
Proof.
  induction tags as [|tag rest IH]; intros reg Hhas Hok; simpl in *.
  - constructor.
  - destruct (customElements_get reg tag) as [c|] eqn:Hget.
    + constructor; [rewrite Hget; discriminate|]. now apply IH.
    + unfold customElements_define in Hok. rewrite Hget, Hhas in Hok.
      destruct (negb (isValidCustomElementName tag)); discriminate.
Qed.

Lemma defineFallbacks_two : forall tags reg a b,
  In a tags -> In b tags -> a <> b ->
  customElements_get reg a = None -> customElements_get reg b = None ->
  snd (defineFallbacks tags reg) <> Ok tt.
Proof.
  induction tags as [|tag rest IH]; intros reg a b Ha Hb Hab Hga Hgb;
    simpl in *; [contradiction|].
  destruct (customElements_get reg tag) as [c|] eqn:Hget.
  - destruct Ha as [->|Ha]; [congruence|].
    destruct Hb as [->|Hb]; [congruence|].
    now apply (IH reg a b).
  - destruct (customElements_define reg tag FallbackElement) as [r1|e]
      eqn:Hdef; [|simpl; discriminate].
    pose proof (define_appends _ _ _ _ Hdef) as ->.
    intros Hok.
    pose proof (defineFallbacks_after_one rest _
                  (hasConstructor_app reg tag FallbackElement) Hok) as Hall.
    rewrite Forall_forall in Hall.
    assert (Hother : forall x, In x (tag :: rest) -> x <> tag ->
                     customElements_get reg x = None -> False).
    { intros x [->|Hx] Hne Hgx; [congruence|].
      apply (Hall x Hx). unfold customElements_get in *.
      rewrite lookup_app, Hgx. simpl.
      destruct (String.eqb x tag) eqn:Ex; auto.
      apply String.eqb_eq in Ex. congruence. }
    destruct (string_dec a tag) as [->|Hne].
    + apply (Hother b); auto.
    + apply (Hother a); auto.
Qed.

(** X19.  Every fallback definition is bound to the one class
    [FallbackElement], which a registry accepts once: a scan of a tree
    that holds two different hyphenated tags without a definition does not
    complete, it throws. *)
Theorem fallback_scan_rejects_second_tag :
  forall (w : Window) (root : Node) (reg : Registry) (a b : string),
  customElements w = Some reg ->
  In a (hyphenatedTags root) -> In b (hyphenatedTags root) -> a <> b ->
  customElements_get reg a = None -> customElements_get reg b = None ->
  exists e, snd (registerFallbackComponents w root) = Throw e.
Proof.
  intros w root reg a b Hreg Ha Hb Hab Hga Hgb.
  unfold registerFallbackComponents. rewrite Hreg.
  pose proof (defineFallbacks_two (hyphenatedTags root) reg a b
                Ha Hb Hab Hga Hgb) as Hne.
  destruct (defineFallbacks (hyphenatedTags root) reg) as [reg' outcome].
  simpl in *. destruct outcome as [[]|e]; [now elim Hne|eauto].
Qed.

(** The tags [x-a] and [x-b] of [sceneTwoTags] on a fresh window. *)
Lemma fallback_scan_rejects_second_tag_witness :
  hyphenatedTags sceneTwoTags = ["x-a"; "x-b"]
  /\ exists e, snd (registerFallbackComponents freshWindow sceneTwoTags)
               = Throw e.
Proof.
  split; [reflexivity|].
  apply (fallback_scan_rejects_second_tag freshWindow sceneTwoTags []
           "x-a" "x-b"); try reflexivity.
  - vm_compute. auto.
  - vm_compute. auto.
  - discriminate.
Defined.

(** An instance of [demo-card] without children. *)
Lemma demo_placeholder_renders_once_witness :
  childNodes (element "DEMO-CARD" (Some 1%nat) None) = []
  /\ exists st first second,
       childNodes (DemoPlaceholderElement_connectedCallback stage
                     (element "DEMO-CARD" (Some 1%nat) None))
       = [Element "div" st [] [first; second]]
       /\ textContent first = [Chars "Demo: <demo-card>"]
       /\ textContent second
          = lit "This demo component is a placeholder in the DOM runtime.".
Proof.
  split; [reflexivity|].
  apply (demo_placeholder_renders_once stage
           (element "DEMO-CARD" (Some 1%nat) None)).
  reflexivity.
Defined.

(** ** Reading a custom property *)

Lemma trimStartChars_nil : forall l,
  trimStartChars l = [] <-> forallb isStrWhiteSpace l = true.
Proof.
  induction l as [|c l IH]; simpl.
  - tauto.
  - destruct (isStrWhiteSpace c); simpl; auto.
    split; discriminate.
Qed.

Lemma trimStartChars_head : forall l c rest,
  trimStartChars l = c :: rest -> isStrWhiteSpace c = false.
Proof.
  induction l as [|x l IH]; simpl; intros c rest H; [discriminate|].
  destruct (isStrWhiteSpace x) eqn:E.
  - eapply IH; eauto.
  - inversion H; subst. exact E.
Qed.

Lemma forallb_rev : forall (A : Type) (f : A -> bool) l,
  forallb f (rev l) = forallb f l.
Proof.
  intros A f l. induction l as [|x l IH]; simpl; auto.
  rewrite forallb_app, IH. simpl. rewrite andb_true_r. apply andb_comm.
Qed.

Lemma trimChars_nil : forall l,
  trimChars l = [] <-> forallb isStrWhiteSpace l = true.
Proof.
  intros l. unfold trimChars. split.
  - intros H.
    assert (H1 : trimStartChars (rev (trimStartChars l)) = []).
    { destruct (trimStartChars (rev (trimStartChars l))); auto.
      simpl in H. now destruct (rev l0). }
    apply trimStartChars_nil in H1. rewrite forallb_rev in H1.
    destruct (trimStartChars l) as [|c rest] eqn:E.
    + now apply trimStartChars_nil.
    + apply trimStartChars_head in E. simpl in H1. rewrite E in H1.
      discriminate.
  - intros H. apply trimStartChars_nil in H. now rewrite H.
Qed.

Lemma trimChars_ends : forall l c rest,
  trimChars l = c :: rest ->
  isStrWhiteSpace c = false
  /\ isStrWhiteSpace (last (c :: rest) c) = false.
Proof.
  intros l c rest H. unfold trimChars in H.
  destruct (trimStartChars (rev (trimStartChars l))) as [|d more] eqn:E;
    [discriminate|].
  pose proof (trimStartChars_head _ _ _ E) as Hd.
  split.
  - assert (Hall : forall m, trimStartChars m = m \/
                             forallb isStrWhiteSpace m = true \/
                             exists pre, m = pre ++ trimStartChars m
                                         /\ pre <> []).
    { induction m as [|x m IH]; simpl; auto.
      destruct (isStrWhiteSpace x) eqn:Ex; auto.
      right. destruct IH as [IH|[IH|(pre & IH & _)]].
      - right. exists [x]. rewrite IH. split; [reflexivity|discriminate].
      - left. exact IH.
      - right. exists (x :: pre). split; [|discriminate].
        simpl. now rewrite <- IH. }
    destruct (trimStartChars l) as [|x rest'] eqn:El.
    { simpl in E. discriminate. }
    pose proof (trimStartChars_head _ _ _ El) as Hx.
    destruct (Hall (rev (x :: rest'))) as [Hs|[Hs|(pre & Hs & Hne)]].
    + rewrite Hs in E. rewrite <- E, rev_involutive in H.
      inversion H; subst. exact Hx.
    + rewrite forallb_rev in Hs. simpl in Hs. rewrite Hx in Hs.
      discriminate.
    + rewrite E in Hs.
      assert (Hr : x :: rest' = rev (d :: more) ++ rev pre).
      { rewrite <- rev_app_distr, <- Hs. now rewrite rev_involutive. }
      rewrite H in Hr. simpl in Hr. inversion Hr; subst. exact Hx.
  - rewrite <- H. simpl rev.
    rewrite last_last. exact Hd.
Qed.

Lemma str_nil : forall l, str l = EmptyString <-> l = [].
Proof.
  intros l. unfold str. split.
  - destruct l; simpl; [auto|discriminate].
  - intros ->. reflexivity.
Qed.

Lemma chars_str : forall l, chars (str l) = l.
Proof. intros l. unfold chars, str. apply list_ascii_of_string_of_list_ascii. Qed.


